(** * Digest assembly of the ACR Intel Agent

    Shallow embedding of [build_digest] from [scripts/generate_digest.py]
    and the properties of the three tiers it returns
    ([must_know], [worth_a_look], [quick_hits]).

    Conventions of the embedding.
    - A Python [dict] read only through [.get] is an association list; a
      missing key is a failed lookup, and an empty dict is falsy.
    - The rows of [summaries] are records whose fields are [option]s:
      [None] stands for a key that is absent from the row, so that
      [s.get(k, default)] is [default_to default (field s)].
    - [relevance_score] is a Python [int], modelled as [Z].
    - The thresholds [max_score * 0.7] and [max_score * 0.4] are Python
      floats.  They are modelled as exact rationals ([Q]); Python compares
      an [int] with a [float] exactly, and [float_thresholds_agree]
      checks on IEEE binary64 that for all scores in 0..100 the
      comparisons against the rounded products agree with the exact ones.
    - [list.sort(key=..., reverse=True)] is a stable sort: it is modelled
      by a stable insertion sort, [sort_desc], which [sort_desc_unique]
      shows to be the only stable descending sort.

    The second half covers what surrounds [build_digest]: the date
    filter of [get_recent_summaries], [get_digest_recipients] and [main]
    of the same script, the normalisation of the scorer's answer in
    [summarize_item], the feed ingest of [ingest_rss.py] and the text of
    the podcast of [generate_podcast.py]. What lies outside the scripts
    (the database, the feeds, the mail service, the clock) enters as
    arguments. *)

From Stdlib Require Import ZArith QArith String List Bool Lia Ascii NArith.
From Stdlib Require Import Sorting.Sorted Permutation.
From Stdlib Require Import Floats.PrimFloat Numbers.Cyclic.Int63.Uint63.
Import ListNotations.

Local Open Scope Z_scope.

(** ** Data model *)

(** A JSON object as the database client returns it. *)
Definition dict := list (string * string).

Fixpoint dict_get (d : dict) (k : string) (default : string) : string :=
  match d with
  | [] => default
  | (k', v) :: d' => if String.eqb k k' then v else dict_get d' k default
  end.

(** Python truthiness of a dict: [not d] holds exactly for the empty one. *)
Definition dict_truthy (d : dict) : bool :=
  match d with [] => false | _ :: _ => true end.

(** The value under the key ['item'] of a summary row: absent (or null),
    a single joined object, or a list of joined objects. *)
Inductive item_field : Type :=
| ItemAbsent
| ItemObject (d : dict)
| ItemList (l : list dict).

(** A row of [summaries]. *)
Record summary_row : Type := mkRow {
  row_item : item_field;
  row_summary : option string;
  row_why_it_matters : option string;
  row_category : option string;
  row_relevance_score : option Z;
  row_must_read : option bool
}.

(** The dict appended to [items] for each row that has an item record. *)
Record digest_item : Type := mkItem {
  title : string;
  url : string;
  summary : string;
  why_it_matters : string;
  category : string;
  relevance_score : Z;
  must_read : bool
}.

(** The dict returned by [build_digest]. *)
Record digest : Type := mkDigest {
  must_know : list digest_item;
  worth_a_look : list digest_item;
  quick_hits : list digest_item
}.

Definition empty_digest : digest := mkDigest [] [] [].

(** ** The loop that collects [items] (lines 70-88) *)

(** [s.get(k, default)] on a row field. *)
Definition default_to {A : Type} (default : A) (o : option A) : A :=
  match o with Some a => a | None => default end.

(** Lines 72-78: the item record of a row, if it has a usable one.
    [if not item: continue] drops an absent, null or empty value; a list
    is replaced by its first element, which is tested again. *)
Definition item_record (f : item_field) : option dict :=
  match f with
  | ItemAbsent => None
  | ItemObject d => if dict_truthy d then Some d else None
  | ItemList [] => None
  | ItemList (d :: _) => if dict_truthy d then Some d else None
  end.

(** Lines 80-88. *)
Definition make_item (s : summary_row) (item : dict) : digest_item :=
  {| title := dict_get item "title" "Untitled";
     url := dict_get item "url" "";
     summary := default_to ""%string (row_summary s);
     why_it_matters := default_to ""%string (row_why_it_matters s);
     category := default_to "sar"%string (row_category s);
     relevance_score := default_to 0 (row_relevance_score s);
     must_read := default_to false (row_must_read s) |}.

Fixpoint collect_items (summaries : list summary_row) : list digest_item :=
  match summaries with
  | [] => []
  | s :: rest =>
      match item_record (row_item s) with
      | None => collect_items rest
      | Some item => make_item s item :: collect_items rest
      end
  end.

(** ** Stable descending sort (line 90) *)

Section StableSort.
Variable A : Type.
Variable key : A -> Z.

(** [x] arrives from the left of the elements of [l]: it is placed
    before the first element whose key does not exceed its own, hence
    before every element with an equal key. *)
Fixpoint insert_desc (x : A) (l : list A) : list A :=
  match l with
  | [] => [x]
  | y :: l' => if key x <? key y then y :: insert_desc x l' else x :: l
  end.

Fixpoint sort_desc (l : list A) : list A :=
  match l with
  | [] => []
  | x :: l' => insert_desc x (sort_desc l')
  end.
End StableSort.

Arguments insert_desc {A} key x l.
Arguments sort_desc {A} key l.

(** ** Thresholds (lines 92-95) *)

(** Python's [max(a, b)]: the first argument unless the second is
    strictly greater. *)
Definition py_max (a b : Q) : Q := if Qle_bool b a then a else b.

(** [max(scores) if scores else 0]. *)
Definition max_of_scores (scores : list Z) : Z :=
  match scores with
  | [] => 0
  | x :: xs => fold_left Z.max xs x
  end.

Definition high_threshold_of (max_score : Z) : Q :=
  py_max (inject_Z max_score * (7 # 10)) (inject_Z 60).

Definition mid_threshold_of (max_score : Z) : Q :=
  py_max (inject_Z max_score * (4 # 10)) (inject_Z 30).

(** [x >= t] and [x < t] for an integer score against a threshold. *)
Definition score_ge (x : Z) (t : Q) : bool := Qle_bool t (inject_Z x).
Definition score_lt (x : Z) (t : Q) : bool := negb (Qle_bool t (inject_Z x)).

(** ** The three comprehensions (lines 97-99) *)

Definition is_must_know (high : Q) (i : digest_item) : bool :=
  must_read i || score_ge (relevance_score i) high.

Definition is_worth_a_look (mid high : Q) (i : digest_item) : bool :=
  negb (must_read i)
  && (score_ge (relevance_score i) mid && score_lt (relevance_score i) high).

Definition is_quick_hit (mid : Q) (i : digest_item) : bool :=
  (0 <? relevance_score i) && score_lt (relevance_score i) mid.

(** ** [build_digest], staged as the source is *)

(** Line 90: [items] after the sort. *)
Definition sorted_items (summaries : list summary_row) : list digest_item :=
  sort_desc relevance_score (collect_items summaries).

(** Lines 92-93. *)
Definition max_score (summaries : list summary_row) : Z :=
  max_of_scores (map relevance_score (sorted_items summaries)).

(** Lines 94-95. *)
Definition high_threshold (summaries : list summary_row) : Q :=
  high_threshold_of (max_score summaries).

Definition mid_threshold (summaries : list summary_row) : Q :=
  mid_threshold_of (max_score summaries).

(** The comprehensions of lines 97-99 before their slices. *)
Definition critical_candidates (summaries : list summary_row) :=
  filter (is_must_know (high_threshold summaries)) (sorted_items summaries).

Definition notable_candidates (summaries : list summary_row) :=
  filter (is_worth_a_look (mid_threshold summaries) (high_threshold summaries))
         (sorted_items summaries).

Definition minor_candidates (summaries : list summary_row) :=
  filter (is_quick_hit (mid_threshold summaries)) (sorted_items summaries).

(** Lines 97-99: the tiers after truncation, before the fallback. *)
Definition truncated_tiers (summaries : list summary_row) : digest :=
  {| must_know := firstn 3 (critical_candidates summaries);
     worth_a_look := firstn 7 (notable_candidates summaries);
     quick_hits := firstn 10 (minor_candidates summaries) |}.

(** Lines 101-103: [if not must_know and worth_a_look]. *)
Definition fallback (d : digest) : digest :=
  match must_know d, worth_a_look d with
  | [], _ :: _ =>
      {| must_know := firstn 2 (worth_a_look d);
         worth_a_look := skipn 2 (worth_a_look d);
         quick_hits := quick_hits d |}
  | _, _ => d
  end.

Definition build_digest (summaries : list summary_row) : digest :=
  fallback (truncated_tiers summaries).

(** ** Sample rows *)

Definition sample_item : dict :=
  [("id", "1"); ("title", "Beacon rule");
   ("url", "https://example.org/a")]%string.

(** A row with an item record, a score and a must-read flag. *)
Definition row (score : Z) (flag : bool) : summary_row :=
  mkRow (ItemObject sample_item) (Some "s"%string) (Some "w"%string)
        (Some "sar"%string) (Some score) (Some flag).

(** The same row without its item record. *)
Definition orphan_row (score : Z) (flag : bool) : summary_row :=
  mkRow ItemAbsent (Some "s"%string) (Some "w"%string)
        (Some "sar"%string) (Some score) (Some flag).

(** The item [build_digest] makes of [row score flag]. *)
Definition item_of (score : Z) (flag : bool) : digest_item :=
  make_item (row score flag) sample_item.

(** ** Order-preserving sublists *)

(** [sublist l1 l2]: [l1] is [l2] with some elements removed, the others
    in their order. Filters and slices of a list are sublists of it. *)
Inductive sublist {A : Type} : list A -> list A -> Prop :=
| sublist_nil : sublist [] []
| sublist_skip x l1 l2 : sublist l1 l2 -> sublist l1 (x :: l2)
| sublist_keep x l1 l2 : sublist l1 l2 -> sublist (x :: l1) (x :: l2).

(** [ge_score a b]: [a] may stand before [b] in a descending list. *)
Definition ge_score (a b : digest_item) : Prop :=
  relevance_score b <= relevance_score a.

(** The items of a list that have score [v], in their order. *)
Definition with_score (v : Z) (l : list digest_item) : list digest_item :=
  filter (fun i => relevance_score i =? v) l.

(** [tier] is in descending score order, and its items of any one score
    stand in the order they have in [input]. *)
Definition keeps_order (input tier : list digest_item) : Prop :=
  StronglySorted ge_score tier
  /\ forall v : Z, sublist (with_score v tier) (with_score v input).

(** Cutting [candidates] after [n] items keeps the best: no item cut
    off scores higher than an item kept. *)
Definition keeps_top (n : nat) (candidates : list digest_item) : Prop :=
  forall a b : digest_item,
    In a (firstn n candidates) -> In b (skipn n candidates) -> ge_score a b.

(** ** Score normalisation, as the specification words it *)

(** [min(100, max(0, score))]. *)
Definition clamp_score (x : Z) : Z := Z.min 100 (Z.max 0 x).

Definition set_score (s : summary_row) (v : Z) : summary_row :=
  {| row_item := row_item s;
     row_summary := row_summary s;
     row_why_it_matters := row_why_it_matters s;
     row_category := row_category s;
     row_relevance_score := Some v;
     row_must_read := row_must_read s |}.

(** The score [build_digest] reads from a row. *)
Definition row_score (s : summary_row) : Z :=
  default_to 0 (row_relevance_score s).

(** The row with a missing score written out as 0. *)
Definition with_default_score (s : summary_row) : summary_row :=
  set_score s (row_score s).

(** The row with its score (0 when missing) clamped into [0,100]. *)
Definition with_clamped_score (s : summary_row) : summary_row :=
  set_score s (clamp_score (row_score s)).

Definition score_in_range (s : summary_row) : Prop :=
  0 <= row_score s <= 100.

(** Whether the loop of lines 71-88 appends an item for the row. *)
Definition has_item_record (s : summary_row) : bool :=
  match item_record (row_item s) with
  | Some _ => true
  | None => false
  end.

(** The maximum score over every row of the pool, rows without an item
    record included; this is the specification's wording of [max_score],
    to be compared with [max_score] above. *)
Definition pool_max_score (summaries : list summary_row) : Z :=
  max_of_scores (map row_score summaries).

(** ** The thresholds on IEEE binary64 *)

(** [max_score * 0.7] as Python computes it: the int is converted to a
    float and multiplied by the double nearest to 0.7. *)
Definition float_of_score (z : Z) : float :=
  PrimFloat.of_uint63 (Uint63.of_Z z).

Definition float_0_7 : float := 0x1.6666666666666p-1%float.
Definition float_0_4 : float := 0x1.999999999999ap-2%float.

Definition float_max (a b : float) : float :=
  if PrimFloat.ltb a b then b else a.

Definition float_high_threshold (m : Z) : float :=
  float_max (PrimFloat.mul (float_of_score m) float_0_7) (float_of_score 60).

Definition float_mid_threshold (m : Z) : float :=
  float_max (PrimFloat.mul (float_of_score m) float_0_4) (float_of_score 30).

(** The scores the scorer can store: 0..100. *)
Definition stored_scores : list Z := map Z.of_nat (seq 0 101).

(** [s >= threshold] on floats against the same test on rationals. *)
Definition float_agrees (m s : Z) : bool :=
  Bool.eqb (PrimFloat.leb (float_high_threshold m) (float_of_score s))
           (score_ge s (high_threshold_of m))
  && Bool.eqb (PrimFloat.leb (float_mid_threshold m) (float_of_score s))
              (score_ge s (mid_threshold_of m)).

(** ** The date filter of [get_recent_summaries] (lines 56-66) *)

(** [d.get(k)]: [None] when the key is missing. *)
Fixpoint dict_lookup (d : dict) (k : string) : option string :=
  match d with
  | [] => None
  | (k', v) :: d' => if String.eqb k k' then Some v else dict_lookup d' k
  end.

(** Python truthiness of a str. *)
Definition str_truthy (s : string) : bool :=
  match s with EmptyString => false | String _ _ => true end.

(** Lines 59-64 on one row: [Some true] when the row is appended,
    [Some false] when it is skipped, [None] when [item.get] raises
    [AttributeError], the item being a non-empty list. *)
Definition recent_row (pub_cutoff : string) (s : summary_row) : option bool :=
  match row_item s with
  | ItemAbsent => Some true
  | ItemObject d =>
      if dict_truthy d then
        match dict_lookup d "published_at" with
        | Some pub_date =>
            Some (negb (str_truthy pub_date && String.ltb pub_date pub_cutoff))
        | None => Some true
        end
      else Some true
  | ItemList [] => Some true
  | ItemList (_ :: _) => None
  end.

(** The loop of lines 57-66; [None] when it raises. *)
Fixpoint filter_recent (pub_cutoff : string) (rows : list summary_row)
  : option (list summary_row) :=
  match rows with
  | [] => Some []
  | s :: rest =>
      match recent_row pub_cutoff s with
      | None => None
      | Some keep =>
          match filter_recent pub_cutoff rest with
          | None => None
          | Some filtered => Some (if keep then s :: filtered else filtered)
          end
      end
  end.

(** The publication date the filter reads from a row, when the row has a
    non-empty item object with a non-empty date. *)
Definition published_at (s : summary_row) : option string :=
  match row_item s with
  | ItemObject d =>
      match dict_lookup d "published_at" with
      | Some pub_date => if str_truthy pub_date then Some pub_date else None
      | None => None
      end
  | _ => None
  end.

(** [ge_row a b]: row [a] may stand before row [b] in the order of the
    query, [relevance_score] descending. *)
Definition ge_row (a b : summary_row) : Prop := row_score b <= row_score a.

(** A row whose item carries a publication date. *)
Definition dated_row (pub_date : string) (score : Z) : summary_row :=
  mkRow (ItemObject [("title", "T"); ("published_at", pub_date)]%string)
        None None None (Some score) None.

(** ** The recipients of the digest (lines 28-44) *)

(** Strings are sequences of characters with code points below 256.
    [c.isspace()] on these: tab to carriage return, the four separators
    28-31, the space, NEL (133) and the no-break space (160). *)
Definition is_space (c : ascii) : bool :=
  let n := N_of_ascii c in
  ((9 <=? n) && (n <=? 13) || (28 <=? n) && (n <=? 32)
   || (n =? 133) || (n =? 160))%N.

(** [s.lstrip()], [s.rstrip()] and [s.strip()]. *)
Fixpoint lstrip (s : string) : string :=
  match s with
  | EmptyString => EmptyString
  | String c s' => if is_space c then lstrip s' else s
  end.

Fixpoint rstrip (s : string) : string :=
  match s with
  | EmptyString => EmptyString
  | String c s' =>
      match rstrip s' with
      | EmptyString => if is_space c then EmptyString else String c EmptyString
      | String _ _ as r => String c r
      end
  end.

Definition strip (s : string) : string := rstrip (lstrip s).

(** [s.split(sep)] for a separator of one character: never empty. *)
Fixpoint split_on (sep : ascii) (s : string) : list string :=
  match s with
  | EmptyString => [EmptyString]
  | String c s' =>
      if Ascii.eqb c sep then EmptyString :: split_on sep s'
      else match split_on sep s' with
           | w :: ws => String c w :: ws
           | [] => [String c EmptyString]
           end
  end.

(** [[e.strip() for e in value.split(',') if e.strip()]]. *)
Definition parse_recipients (value : string) : list string :=
  map strip (filter (fun e => str_truthy (strip e)) (split_on "," value)).

(** What the query on the settings table gives: an exception (no row
    included), or the row with its value, if it has one. *)
Inductive settings_result : Type :=
| SettingsError
| SettingsRow (value : option string).

(** [get_digest_recipients], given the outcome of the query and the
    value of the environment variable. *)
Definition get_digest_recipients (db : settings_result) (env : string)
  : list string :=
  match db with
  | SettingsRow (Some value) =>
      if str_truthy value then parse_recipients value
      else parse_recipients env
  | _ => parse_recipients env
  end.

(** The characters of a string. *)
Definition chars (s : string) : list ascii := list_ascii_of_string s.

Definition comma : ascii := ","%char.

(** ** The scorer's result, [summarize_item] (summarize.py, lines 76-110) *)

(** A float as [json.loads] can return it. *)
Inductive json_float : Type :=
| FloatFinite (q : Q)
| FloatNan
| FloatInf (negative : bool).

(** A value returned by [json.loads]. *)
#[warnings="-register-all"]
Inductive json : Type :=
| JNull
| JBool (b : bool)
| JInt (z : Z)
| JFloat (f : json_float)
| JStr (s : string)
| JArr (l : list json)
| JObj (o : list (string * json)).

Definition json_object := list (string * json).

(** [result.get(k, default)]. *)
Fixpoint json_get (o : json_object) (k : string) (default : json) : json :=
  match o with
  | [] => default
  | (k', v) :: o' => if String.eqb k k' then v else json_get o' k default
  end.

(** [bool(v)]. *)
Definition json_truthy (v : json) : bool :=
  match v with
  | JNull => false
  | JBool b => b
  | JInt z => negb (z =? 0)
  | JFloat (FloatFinite q) => negb (Qeq_bool q 0)
  | JFloat _ => true
  | JStr s => str_truthy s
  | JArr l => match l with [] => false | _ :: _ => true end
  | JObj o => match o with [] => false | _ :: _ => true end
  end.

(** The record [summarize_item] returns. [topics] is what the slice
    [[:3]] leaves: a list, or a string when the model sent one. *)
Record item_summary : Type := mkSummary {
  sum_summary : string;
  sum_why_it_matters : string;
  sum_category : string;
  sum_topics : json;
  sum_relevance_score : Z;
  sum_must_read : bool;
  sum_hype_flag : bool
}.

Definition valid_categories : list string :=
  ["sar"; "aviation"; "maritime"; "manufacturing"; "geopolitical";
   "competitor"; "customer"]%string.

(** The categories the prompt asks the model to choose from (line 35). *)
Definition prompt_categories : list string :=
  ["market"; "technology"; "supply_chain"; "trade"; "regulatory";
   "competitor"]%string.

(** Lines 102-110: the record returned when anything in the [try] block
    raises. *)
Definition parse_error_summary (title : string) : item_summary :=
  {| sum_summary := title;
     sum_why_it_matters := "Unable to analyze significance";
     sum_category := "sar";
     sum_topics := JArr [];
     sum_relevance_score := 30;
     sum_must_read := false;
     sum_hype_flag := false |}.

Section SummarizeItem.
(** Two built-ins are taken as they are: [int] on a str, which raises
    [ValueError] ([None]) unless the str is a numeral, and [str] on a
    value that is not a str. *)
Variable int_of_str : string -> option Z.
Variable str_of_value : json -> string.

(** [int(v)]; [None] when it raises. Floats are truncated towards zero. *)
Definition py_int (v : json) : option Z :=
  match v with
  | JInt z => Some z
  | JBool b => Some (if b then 1 else 0)
  | JFloat (FloatFinite q) => Some (Z.quot (Qnum q) (Z.pos (Qden q)))
  | JFloat _ => None
  | JStr s => int_of_str s
  | JNull | JArr _ | JObj _ => None
  end.

(** [str(v)]. *)
Definition py_str (v : json) : string :=
  match v with
  | JStr s => s
  | _ => str_of_value v
  end.

(** [v[:3]]; [None] when the value cannot be sliced. *)
Definition first_three (v : json) : option json :=
  match v with
  | JArr l => Some (JArr (firstn 3 l))
  | JStr s => Some (JStr (substring 0 3 s))
  | _ => None
  end.

(** Lines 86-89. A value that is not a str equals no valid category. *)
Definition checked_category (v : json) : string :=
  match v with
  | JStr c => if existsb (String.eqb c) valid_categories then c else "sar"
  | _ => "sar"
  end.

(** Lines 78-110, from the outcome of the search for a JSON object in
    the response: [None] when there is none or it does not parse. *)
Definition summarize_result (title : string) (parsed : option json_object)
  : item_summary :=
  match parsed with
  | None => parse_error_summary title
  | Some result =>
      match first_three (json_get result "topics" (JArr [])),
            py_int (json_get result "relevance_score" (JInt 50)) with
      | Some topics, Some score =>
          {| sum_summary :=
               py_str (json_get result "summary" (JStr "No summary available"));
             sum_why_it_matters :=
               py_str (json_get result "why_it_matters"
                                (JStr "Significance unclear"));
             sum_category :=
               checked_category (json_get result "category" (JStr "sar"));
             sum_topics := topics;
             sum_relevance_score := Z.min 100 (Z.max 0 score);
             sum_must_read :=
               json_truthy (json_get result "must_read" (JBool false));
             sum_hype_flag :=
               json_truthy (json_get result "hype_flag" (JBool false)) |}
      | _, _ => parse_error_summary title
      end
  end.
End SummarizeItem.

(** The length of what the slice left. *)
Definition topics_length (v : json) : nat :=
  match v with
  | JArr l => List.length l
  | JStr s => String.length s
  | _ => 0%nat
  end.

(** ** The feed ingest (ingest_rss.py) *)

(** One of the attributes [published_parsed], [updated_parsed] and
    [created_parsed] of a feed entry: missing or falsy, a time tuple that
    [datetime] refuses, or a time tuple denoting an instant. Instants are
    integers (microseconds since the epoch); an ISO string written by
    [isoformat] is identified with the instant it denotes, which
    [fromisoformat] reads back. *)
Inductive time_attr : Type :=
| TimeAbsent
| TimeInvalid
| TimeValid (t : Z).

(** A feed entry, by the attributes the script reads. *)
Record feed_entry : Type := mkEntry {
  entry_link : option string;
  entry_title : option string;
  entry_published_parsed : time_attr;
  entry_updated_parsed : time_attr;
  entry_created_parsed : time_attr;
  entry_content : option (list dict);
  entry_summary : option string;
  entry_description : option string
}.

(** [parse_date] (lines 24-33), [now] being what the clock reads when
    the function comes to ask it. *)
Definition parse_date (now : Z) (entry : feed_entry) : Z :=
  match entry_published_parsed entry with
  | TimeValid t => t
  | _ =>
      match entry_updated_parsed entry with
      | TimeValid t => t
      | _ =>
          match entry_created_parsed entry with
          | TimeValid t => t
          | _ => now
          end
      end
  end.

(** Whether [parse_date] reads the clock: none of the three attributes
    gives an instant. *)
Definition reads_clock (entry : feed_entry) : bool :=
  match entry_published_parsed entry, entry_updated_parsed entry,
        entry_created_parsed entry with
  | TimeValid _, _, _ | _, TimeValid _, _ | _, _, TimeValid _ => false
  | _, _, _ => true
  end.

Definition content_limit : nat := Z.to_nat 10000.
Definition title_limit : nat := 500.

(** [get_content] (lines 35-43). *)
Definition get_content (entry : feed_entry) : string :=
  match entry_content entry with
  | Some (c :: _) => substring 0 content_limit (dict_get c "value" "")
  | _ =>
      match entry_summary entry with
      | Some s => substring 0 content_limit s
      | None =>
          match entry_description entry with
          | Some d => substring 0 content_limit d
          | None => EmptyString
          end
      end
  end.

(** A row of the table [sources]. *)
Record feed_source : Type := mkSource {
  source_id : string;
  source_url : string
}.

(** The row inserted into the table [items] (lines 92-99). *)
Record ingest_item : Type := mkIngestItem {
  item_source_id : string;
  item_title : string;
  item_url : string;
  item_content : string;
  item_published_at : Z;
  item_fetched_at : Z
}.

(** What [main] carries through its loops: the set [existing_urls], the
    rows inserted so far (latest first), the two counters, and how many
    times the clock has been read. *)
Record ingest_state : Type := mkIngest {
  existing_urls : list string;
  inserted : list ingest_item;
  total_new : nat;
  total_skipped : nat;
  clock_reads : nat
}.

Definition url_known (u : string) (st : ingest_state) : bool :=
  existsb (String.eqb u) (existing_urls st).

Section Ingest.
(** The world outside: what [feedparser.parse] returns for a URL ([None]
    when it raises), whether the insert of a row succeeds, what the
    clock shows at each reading, and the cutoff (seven days before the
    start of the run). *)
Variable fetch : string -> option (list feed_entry).
Variable insert_ok : ingest_item -> bool.
Variable clock : nat -> Z.
Variable cutoff : Z.

(** The inner loop (lines 78-103) over the entries of one feed. The
    second component is [new_count], or [None] when an insert raised and
    the rest of the feed is abandoned. *)
Fixpoint process_entries (src : feed_source) (entries : list feed_entry)
    (st : ingest_state) (new_count : nat) : ingest_state * option nat :=
  match entries with
  | [] => (st, Some new_count)
  | entry :: rest =>
      let u := default_to EmptyString (entry_link entry) in
      if negb (str_truthy u) || url_known u st then
        process_entries src rest st new_count
      else
        let pub_date := parse_date (clock (clock_reads st)) entry in
        let reads := if reads_clock entry then S (clock_reads st)
                     else clock_reads st in
        if pub_date <? cutoff then
          process_entries src rest
            {| existing_urls := existing_urls st;
               inserted := inserted st;
               total_new := total_new st;
               total_skipped := S (total_skipped st);
               clock_reads := reads |}
            new_count
        else
          let item :=
            {| item_source_id := source_id src;
               item_title :=
                 substring 0 title_limit
                           (default_to "Untitled"%string (entry_title entry));
               item_url := u;
               item_content := get_content entry;
               item_published_at := pub_date;
               item_fetched_at := clock reads |} in
          if insert_ok item then
            process_entries src rest
              {| existing_urls := u :: existing_urls st;
                 inserted := item :: inserted st;
                 total_new := total_new st;
                 total_skipped := total_skipped st;
                 clock_reads := S reads |}
              (S new_count)
          else
            ({| existing_urls := existing_urls st;
                inserted := inserted st;
                total_new := total_new st;
                total_skipped := total_skipped st;
                clock_reads := S reads |}, None)
  end.

(** The body of the outer loop (lines 73-110) for one source. *)
Definition process_source (st : ingest_state) (src : feed_source)
  : ingest_state :=
  match fetch (source_url src) with
  | None => st
  | Some entries =>
      match process_entries src (firstn 20 entries) st 0 with
      | (st', Some new_count) =>
          {| existing_urls := existing_urls st';
             inserted := inserted st';
             total_new := (total_new st' + new_count)%nat;
             total_skipped := total_skipped st';
             clock_reads := clock_reads st' |}
      | (st', None) => st'
      end
  end.

(** The run of [main] from the URLs already stored. *)
Definition ingest (sources : list feed_source) (existing : list string)
  : ingest_state :=
  fold_left process_source sources
            {| existing_urls := existing;
               inserted := [];
               total_new := 0;
               total_skipped := 0;
               clock_reads := 0 |}.
(** [entry] is not held back by the date test, whenever it is read. *)
Definition always_fresh (entry : feed_entry) : Prop :=
  forall n, cutoff <= parse_date (clock n) entry.

End Ingest.

(** What holds of the rows inserted in a run that started from the
    stored URLs [existing]. *)
Record ingest_invariant (cutoff : Z) (existing : list string)
       (st : ingest_state) : Prop := {
  inv_urls : existing_urls st = map item_url (inserted st) ++ existing;
  inv_nodup : NoDup (map item_url (inserted st));
  inv_new : Forall (fun i => item_url i <> EmptyString
                             /\ ~ In (item_url i) existing) (inserted st);
  inv_rows : Forall (fun i => cutoff <= item_published_at i
                              /\ (String.length (item_title i) <= 500)%nat
                              /\ (String.length (item_content i)
                                  <= content_limit)%nat) (inserted st)
}.

(** ** A sample run of the ingest *)

Definition entry_a : feed_entry :=
  mkEntry (Some "https://example.org/a"%string) (Some "A"%string)
          (TimeValid 900) TimeAbsent TimeAbsent
          None (Some "about a"%string) None.

(** Too old: published before the cutoff. *)
Definition entry_old : feed_entry :=
  mkEntry (Some "https://example.org/old"%string) None
          TimeInvalid (TimeValid 100) TimeAbsent None None None.

(** No link at all. *)
Definition entry_unlinked : feed_entry :=
  mkEntry None (Some "nowhere"%string) (TimeValid 950) TimeAbsent TimeAbsent
          None None None.

(** No date: the clock is read. *)
Definition entry_b : feed_entry :=
  mkEntry (Some "https://example.org/b"%string) (Some "B"%string)
          TimeAbsent TimeAbsent TimeAbsent
          (Some [[("value", "body of b")]%string]) (Some "ignored"%string)
          None.

Definition sample_fetch (u : string) : option (list feed_entry) :=
  if String.eqb u "feed1" then Some [entry_a; entry_old; entry_unlinked]
  else if String.eqb u "feed2" then Some [entry_a; entry_b]
  else None.

Definition sample_sources : list feed_source :=
  [mkSource "s1" "feed1"; mkSource "s0" "down"; mkSource "s2" "feed2"].

Definition sample_run : ingest_state :=
  ingest sample_fetch (fun _ => true) (fun n => 1000 + Z.of_nat n) 500
         sample_sources ["https://example.org/seen"%string].

(** ** The text of the podcast (generate_podcast.py, lines 55-98) *)

(** The line feed. *)
Definition nl : string := String "010"%char EmptyString.

(** The value of the column [content] of a stored digest: each tier may
    be missing, [content.get(k, [])] then giving the empty list. *)
Record stored_content : Type := mkStored {
  stored_must_know : option (list digest_item);
  stored_worth_a_look : option (list digest_item);
  stored_quick_hits : option (list digest_item)
}.

Definition podcast_header (date : string) : string :=
  ("# ACR Industry Intelligence Briefing for " ++ date ++ nl ++ nl
   ++ "Welcome to your daily industry intelligence briefing covering "
   ++ "Search & Rescue, aviation safety, maritime regulations, and the "
   ++ "broader aerospace/marine equipment market." ++ nl ++ nl
   ++ "## CRITICAL UPDATES - Must Know" ++ nl ++ nl)%string.

Definition podcast_must_know (item : digest_item) : string :=
  ("### " ++ title item ++ nl ++ summary item ++ nl ++ nl
   ++ "Why this matters for ACR: " ++ why_it_matters item
   ++ nl ++ nl)%string.

Definition podcast_worth_a_look (item : digest_item) : string :=
  ("### " ++ title item ++ nl ++ summary item ++ nl ++ nl
   ++ "Relevance: " ++ why_it_matters item ++ nl ++ nl)%string.

Definition podcast_quick_hit (item : digest_item) : string :=
  ("- **" ++ title item ++ "**: " ++ summary item ++ nl)%string.

Definition podcast_footer : string :=
  (nl ++ nl ++ "## Wrap Up" ++ nl ++ nl
   ++ "That's your ACR industry intelligence briefing for today. "
   ++ "Stay ahead of regulatory changes, track competitor moves, and "
   ++ "keep building the best safety equipment in the industry."
   ++ nl)%string.

(** A loop [for item in items: text += f(item)]. *)
Definition append_each (f : digest_item -> string) (items : list digest_item)
    (text : string) : string :=
  fold_left (fun acc item => (acc ++ f item)%string) items text.

Definition format_digest_for_podcast (date : string)
    (content : stored_content) : string :=
  let text := podcast_header date in
  let text := append_each podcast_must_know
                (default_to [] (stored_must_know content)) text in
  let text := (text ++ nl ++ "## INDUSTRY DEVELOPMENTS - Worth Tracking"
               ++ nl ++ nl)%string in
  let text := append_each podcast_worth_a_look
                (default_to [] (stored_worth_a_look content)) text in
  let text := (text ++ nl ++ "## QUICK INTEL - Brief Updates"
               ++ nl ++ nl)%string in
  let text := append_each podcast_quick_hit
                (default_to [] (stored_quick_hits content)) text in
  (text ++ podcast_footer)%string.

(** The digest as [main] of generate_digest.py stores it. *)
Definition store_digest (d : digest) : stored_content :=
  {| stored_must_know := Some (must_know d);
     stored_worth_a_look := Some (worth_a_look d);
     stored_quick_hits := Some (quick_hits d) |}.

(** [occurs s t]: [s] is a substring of [t]. *)
Definition occurs (s t : string) : Prop :=
  exists a b : string, t = (a ++ s ++ b)%string.

(** ** [main] of generate_digest.py (lines 177-235) *)

(** What [main] does to the world outside, in order. *)
Inductive effect : Type :=
| DeleteDigests (date : string)
| InsertDigest (date : string) (content : digest) (email_sent : bool)
| PostEmail (date : string) (recipients : list string) (content : digest)
| SetEmailSent (date : string).

(** [total] of line 199. *)
Definition digest_total (d : digest) : nat :=
  (length (must_know d) + length (worth_a_look d) + length (quick_hits d))%nat.

(** [main], given what the world answers: whether the three credentials
    are set, the date, the rows of the query of [get_recent_summaries]
    with its publication cutoff, the settings row and the environment
    variable read by [get_digest_recipients], and whether the mail
    service answers 200. The queries on the table [digests] are taken
    to succeed. The result is the list of effects and whether the script
    ends without [sys.exit(1)] or an exception. *)
Definition digest_main (credentials : bool) (today pub_cutoff : string)
    (rows : list summary_row) (settings : settings_result) (env : string)
    (posted : bool) : list effect * bool :=
  if negb credentials then ([], false)
  else
    match filter_recent pub_cutoff rows with
    | None => ([], false)
    | Some [] => ([], false)
    | Some summaries =>
        let content := build_digest summaries in
        if (digest_total content =? 0)%nat then ([], false)
        else
          let saved := [DeleteDigests today;
                        InsertDigest today content false] in
          let post :=
            PostEmail today (get_digest_recipients settings env) content in
          if posted then (saved ++ [post; SetEmailSent today], true)
          else (saved ++ [post], false)
    end.

(** ** [main] of summarize.py (lines 112-183) *)

(** A row of the query on [items] (line 132): its id, its title, its
    content if it has one, and the joined source, which has the shapes of
    [item_field]. *)
Record queued_item : Type := mkQueuedItem {
  queued_id : string;
  queued_title : string;
  queued_content : option string;
  queued_source : item_field
}.

(** Lines 150-156. *)
Definition source_category_of (source : item_field) : string :=
  match source with
  | ItemAbsent => "sar"
  | ItemObject d => if dict_truthy d then dict_get d "category" "sar" else "sar"
  | ItemList [] => "sar"
  | ItemList (d :: _) => dict_get d "category" "sar"
  end.

(** Line 64. *)
Definition truncated_content (content : option string) : string :=
  match content with
  | Some (String _ _ as c) => substring 0 (Z.to_nat 4000) c
  | _ => "(No content - summarize based on title)"
  end.

(** Line 72: the message sent to the model. *)
Definition user_message (title source_category content : string) : string :=
  ("Title: " ++ title ++ nl ++ nl
   ++ "Source category: " ++ source_category ++ nl ++ nl
   ++ "Content:" ++ nl ++ content)%string.

(** What comes back for a message: the call raises, or it returns a
    text in which a JSON object is found and parsed, or not. *)
Inductive model_outcome : Type :=
| ModelError
| ModelAnswer (parsed : option json_object).

(** A row inserted into [summaries] (lines 161-170). *)
Record summary_insert : Type := mkSummaryInsert {
  ins_item_id : string;
  ins_summary : item_summary
}.

(** What the loop of [main] carries. *)
Record summarize_state : Type := mkSummarize {
  stored_summaries : list summary_insert;
  successful : nat;
  failed : nat
}.

(** Line 136. *)
Definition items_to_summarize (items : list queued_item)
    (summarized_ids : list string) : list queued_item :=
  firstn 50
    (filter (fun i => negb (existsb (String.eqb (queued_id i)) summarized_ids))
            items).

Section SummarizeMain.
Variable int_of_str : string -> option Z.
Variable str_of_value : json -> string.
(** The model, and whether the insert of a row succeeds. *)
Variable ask : string -> model_outcome.
Variable insert_ok : summary_insert -> bool.

(** [summarize_item] (lines 62-110); [None] when the call to the model
    raises. *)
Definition summarize_item (title : string) (content : option string)
    (source_category : string) : option item_summary :=
  match ask (user_message title source_category (truncated_content content))
  with
  | ModelError => None
  | ModelAnswer parsed =>
      Some (summarize_result int_of_str str_of_value title parsed)
  end.

(** The body of the loop (lines 149-179). *)
Definition summarize_step (st : summarize_state) (item : queued_item)
  : summarize_state :=
  let failure := {| stored_summaries := stored_summaries st;
                    successful := successful st;
                    failed := S (failed st) |} in
  match summarize_item (queued_title item) (queued_content item)
                       (source_category_of (queued_source item)) with
  | None => failure
  | Some summary =>
      let row := {| ins_item_id := queued_id item; ins_summary := summary |} in
      if insert_ok row then
        {| stored_summaries := row :: stored_summaries st;
           successful := S (successful st);
           failed := failed st |}
      else failure
  end.

Definition summarize_main (items : list queued_item)
    (summarized_ids : list string) : summarize_state :=
  fold_left summarize_step (items_to_summarize items summarized_ids)
            {| stored_summaries := []; successful := 0; failed := 0 |}.
End SummarizeMain.

(** ** The email (generate_digest.py, lines 111-155) *)

(** The double quote. *)
Definition dq : string := String "034"%char EmptyString.

Section FormatEmail.
(** [str.upper], taken as it is. *)
Variable upper : string -> string.

(** Lines 113-119. *)
Definition email_header (date : string) : string :=
  (nl ++ "    <html>" ++ nl ++ "    <body style=" ++ dq
   ++ "font-family: -apple-system, BlinkMacSystemFont, "
   ++ "'Segoe UI', Roboto, sans-serif; max-width: 600px; "
   ++ "margin: 0 auto; padding: 20px;" ++ dq ++ ">" ++ nl
   ++ "        <h1 style=" ++ dq
   ++ "color: #1a1a1a; border-bottom: 2px solid #0066cc; "
   ++ "padding-bottom: 10px;" ++ dq ++ ">" ++ nl
   ++ "            ACR Industry Intelligence - " ++ date ++ nl
   ++ "        </h1>" ++ nl ++ "    ")%string.

(** Line 122. *)
Definition email_critical_heading : string :=
  ("<h2 style=" ++ dq ++ "color: #cc0000;" ++ dq
   ++ ">&#x1F6A8; Critical Updates</h2>")%string.

(** Line 124. *)
Definition cat_badge (item : digest_item) : string :=
  ("<span style=" ++ dq
   ++ "background: #eee; padding: 2px 6px; border-radius: "
   ++ "3px; font-size: 11px; margin-left: 8px;" ++ dq ++ ">"
   ++ upper (category item) ++ "</span>")%string.

(** Lines 125-131. *)
Definition email_critical_item (item : digest_item) : string :=
  (nl ++ "            <div style=" ++ dq
   ++ "margin-bottom: 20px; padding: 15px; background: "
   ++ "#f8f9fa; border-left: 4px solid #cc0000;" ++ dq ++ ">" ++ nl
   ++ "                <h3 style=" ++ dq ++ "margin: 0 0 10px 0;" ++ dq
   ++ "><a href=" ++ dq ++ url item ++ dq ++ " style=" ++ dq
   ++ "color: #1a1a1a; text-decoration: none;" ++ dq ++ ">" ++ title item
   ++ "</a>" ++ cat_badge item ++ "</h3>" ++ nl ++ "                <p style="
   ++ dq ++ "margin: 0 0 10px 0; color: #333;" ++ dq ++ ">" ++ summary item
   ++ "</p>" ++ nl ++ "                <p style=" ++ dq
   ++ "margin: 0; color: #666; font-style: italic;" ++ dq ++ ">ACR Impact: "
   ++ why_it_matters item ++ "</p>" ++ nl ++ "            </div>" ++ nl
   ++ "            ")%string.

(** Line 134. *)
Definition email_watch_heading : string :=
  ("<h2 style=" ++ dq ++ "color: #0066cc;" ++ dq
   ++ ">&#x1F4CB; Industry Watch</h2>")%string.

(** Lines 136-141. *)
Definition email_watch_item (item : digest_item) : string :=
  (nl ++ "            <div style=" ++ dq
   ++ "margin-bottom: 15px; padding: 10px; background: " ++ "#f8f9fa;" ++ dq
   ++ ">" ++ nl ++ "                <h4 style=" ++ dq ++ "margin: 0 0 5px 0;"
   ++ dq ++ "><a href=" ++ dq ++ url item ++ dq ++ " style=" ++ dq
   ++ "color: #1a1a1a;" ++ dq ++ ">" ++ title item ++ "</a></h4>" ++ nl
   ++ "                <p style=" ++ dq
   ++ "margin: 0; color: #666; font-size: 14px;" ++ dq ++ ">" ++ summary item
   ++ "</p>" ++ nl ++ "            </div>" ++ nl ++ "            ")%string.

(** Line 144. *)
Definition email_quick_heading : string :=
  ("<h2 style=" ++ dq ++ "color: #666;" ++ dq
   ++ ">&#x26A1; Quick Hits</h2><ul>")%string.

(** Line 146. *)
Definition email_quick_item (item : digest_item) : string :=
  ("<li><a href=" ++ dq ++ url item ++ dq ++ ">" ++ title item
   ++ "</a></li>")%string.

(** Line 147. *)
Definition email_quick_close : string :=
  ("</ul>")%string.

(** Lines 149-154. *)
Definition email_footer : string :=
  (nl ++ "        <hr style=" ++ dq
   ++ "margin-top: 30px; border: none; border-top: " ++ "1px solid #ddd;"
   ++ dq ++ ">" ++ nl ++ "        <p style=" ++ dq
   ++ "color: #999; font-size: 12px;" ++ dq
   ++ ">Generated by ACR Intel Agent</p>" ++ nl ++ "    </body>" ++ nl
   ++ "    </html>" ++ nl ++ "    ")%string.

(** [format_email_html]: a section is written only for a tier that is
    not empty. *)
Definition format_email_html (date : string) (content : digest) : string :=
  let html := email_header date in
  let html :=
    match must_know content with
    | [] => html
    | _ :: _ =>
        append_each email_critical_item (must_know content)
                    (html ++ email_critical_heading)
    end in
  let html :=
    match worth_a_look content with
    | [] => html
    | _ :: _ =>
        append_each email_watch_item (worth_a_look content)
                    (html ++ email_watch_heading)
    end in
  let html :=
    match quick_hits content with
    | [] => html
    | _ :: _ =>
        (append_each email_quick_item (quick_hits content)
                     (html ++ email_quick_heading)
         ++ email_quick_close)%string
    end in
  (html ++ email_footer)%string.
End FormatEmail.

(** ** Facts about the sort *)

Section StableSortFacts.
Variable A : Type.
Variable key : A -> Z.

Let ge_key (a b : A) : Prop := key b <= key a.

Lemma insert_desc_perm (x : A) (l : list A) :
  Permutation (insert_desc key x l) (x :: l).
Proof.
  induction l as [|y l IH]; simpl; [reflexivity|].
  destruct (key x <? key y); [|reflexivity].
  rewrite IH. apply perm_swap.
Qed.

Lemma sort_desc_perm (l : list A) : Permutation (sort_desc key l) l.
Proof.
  induction l as [|x l IH]; simpl; [constructor|].
  rewrite insert_desc_perm. now constructor.
Qed.

Lemma sort_desc_In (x : A) (l : list A) : In x (sort_desc key l) <-> In x l.
Proof.
  split; apply Permutation_in;
    [apply sort_desc_perm | symmetry; apply sort_desc_perm].
Qed.

Lemma sort_desc_nil_iff (l : list A) : sort_desc key l = [] <-> l = [].
Proof.
  split; intros H.
  - apply Permutation_nil. rewrite <- H. apply sort_desc_perm.
  - now subst.
Qed.

Lemma insert_desc_sorted (x : A) (l : list A) :
  StronglySorted ge_key l -> StronglySorted ge_key (insert_desc key x l).
Proof.
  induction 1 as [|y l Hl IH Hy]; simpl.
  - repeat constructor.
  - destruct (Z.ltb_spec (key x) (key y)) as [Hlt|Hge].
    + constructor; [exact IH|].
      apply Forall_forall. intros z Hz.
      apply (Permutation_in _ (insert_desc_perm x l)) in Hz.
      destruct Hz as [<-|Hz]; [unfold ge_key; lia|].
      rewrite Forall_forall in Hy. now apply Hy.
    + constructor; [now constructor|].
      constructor; [exact Hge|].
      eapply Forall_impl; [|exact Hy].
      unfold ge_key. intros z Hz. lia.
Qed.

Lemma sort_desc_sorted (l : list A) : StronglySorted ge_key (sort_desc key l).
Proof.
  induction l as [|x l IH]; simpl; [constructor|].
  now apply insert_desc_sorted.
Qed.

(** Stability: the elements of any one key leave the sort in the order
    in which they entered it. *)
Lemma insert_desc_stable (v : Z) (x : A) (l : list A) :
  filter (fun a => key a =? v) (insert_desc key x l)
  = filter (fun a => key a =? v) (x :: l).
Proof.
  induction l as [|y l IH]; [reflexivity|].
  simpl insert_desc.
  destruct (Z.ltb_spec (key x) (key y)) as [Hlt|Hge]; [|reflexivity].
  change (filter (fun a => key a =? v) (y :: insert_desc key x l))
    with (if key y =? v
          then y :: filter (fun a => key a =? v) (insert_desc key x l)
          else filter (fun a => key a =? v) (insert_desc key x l)).
  rewrite IH. simpl.
  destruct (Z.eqb_spec (key x) v), (Z.eqb_spec (key y) v);
    try reflexivity; lia.
Qed.

Lemma sort_desc_stable (v : Z) (l : list A) :
  filter (fun a => key a =? v) (sort_desc key l)
  = filter (fun a => key a =? v) l.
Proof.
  induction l as [|x l IH]; [reflexivity|].
  simpl sort_desc. rewrite insert_desc_stable. simpl. now rewrite IH.
Qed.
(** A descending list is determined by its elements of each key, taken in
order: whatever algorithm [list.sort] runs, a stable descending sort of
[l] returns [sort_desc key l]. *)
Lemma sorted_stable_unique (l1 l2 : list A) :
  StronglySorted ge_key l1 -> StronglySorted ge_key l2 ->
  (forall v, filter (fun a => key a =? v) l1
             = filter (fun a => key a =? v) l2) ->
  l1 = l2.
Proof.
  intros H1. revert l2.
  induction H1 as [|x l1 Hs1 IH Hx]; intros l2 H2 Hf.
  - destruct l2 as [|y l2]; [reflexivity|].
    specialize (Hf (key y)). simpl in Hf.
    rewrite Z.eqb_refl in Hf. discriminate Hf.
  - destruct l2 as [|y l2].
    { specialize (Hf (key x)). simpl in Hf.
      rewrite Z.eqb_refl in Hf. discriminate Hf. }
    inversion H2 as [|? ? Hs2 Hy]; subst.
    rewrite Forall_forall in Hx, Hy.
    assert (Hxy : key x <= key y).
    { assert (Hin : In x (filter (fun a => key a =? key x) (y :: l2))).
      { rewrite <- Hf. simpl. rewrite Z.eqb_refl. now left. }
      apply filter_In in Hin. destruct Hin as [[<-|Hin] _]; [lia|].
      now apply Hy. }
    assert (Hyx : key y <= key x).
    { assert (Hin : In y (filter (fun a => key a =? key y) (x :: l1))).
      { rewrite Hf. simpl. rewrite Z.eqb_refl. now left. }
      apply filter_In in Hin. destruct Hin as [[<-|Hin] _]; [lia|].
      now apply Hx. }
    assert (Heq : x = y).
    { specialize (Hf (key x)). simpl in Hf.
      replace (key y =? key x) with true in Hf
        by (symmetry; apply Z.eqb_eq; lia).
      rewrite Z.eqb_refl in Hf. now injection Hf. }
    subst y. f_equal. apply IH; [exact Hs2|].
    intros v. specialize (Hf v). simpl in Hf.
    destruct (key x =? v); [now injection Hf|exact Hf].
Qed.

Lemma sort_desc_unique (l l' : list A) :
  StronglySorted ge_key l' ->
  (forall v, filter (fun a => key a =? v) l'
             = filter (fun a => key a =? v) l) ->
  l' = sort_desc key l.
Proof.
  intros Hs Hf. apply sorted_stable_unique; [exact Hs|apply sort_desc_sorted|].
  intros v. now rewrite sort_desc_stable.
Qed.
End StableSortFacts.

(** ** Facts about sublists *)

Section SublistFacts.
Context {A : Type}.
Implicit Types l : list A.

Lemma sublist_refl l : sublist l l.
Proof. induction l; now constructor. Qed.

Lemma sublist_nil_l l : sublist [] l.
Proof. induction l; now constructor. Qed.

Lemma sublist_trans l1 l2 l3 :
  sublist l1 l2 -> sublist l2 l3 -> sublist l1 l3.
Proof.
  intros H12 H23. revert l1 H12.
  induction H23 as [|x l2 l3 _ IH|x l2 l3 _ IH]; intros l1 H12.
  - exact H12.
  - constructor. now apply IH.
  - inversion H12; subst; constructor; now apply IH.
Qed.

Lemma sublist_In l1 l2 (x : A) : sublist l1 l2 -> In x l1 -> In x l2.
Proof.
  induction 1 as [|y l1 l2 _ IH|y l1 l2 _ IH]; simpl; intuition.
Qed.

Lemma sublist_filter (f : A -> bool) l : sublist (filter f l) l.
Proof.
  induction l as [|x l IH]; simpl; [constructor|].
  destruct (f x); now constructor.
Qed.

Lemma sublist_firstn (n : nat) l : sublist (firstn n l) l.
Proof.
  revert n. induction l as [|x l IH]; intros [|n]; simpl.
  - constructor.
  - constructor.
  - apply sublist_nil_l.
  - apply sublist_keep, IH.
Qed.

Lemma sublist_skipn (n : nat) l : sublist (skipn n l) l.
Proof.
  revert n. induction l as [|x l IH]; intros [|n]; simpl.
  - constructor.
  - constructor.
  - apply sublist_refl.
  - apply sublist_skip, IH.
Qed.

Lemma sublist_filter_mono (f : A -> bool) l1 l2 :
  sublist l1 l2 -> sublist (filter f l1) (filter f l2).
Proof.
  induction 1 as [|x l1 l2 _ IH|x l1 l2 _ IH]; simpl.
  - constructor.
  - destruct (f x); [now constructor|exact IH].
  - destruct (f x); [now constructor|exact IH].
Qed.

Lemma sublist_sorted (R : A -> A -> Prop) l1 l2 :
  sublist l1 l2 -> StronglySorted R l2 -> StronglySorted R l1.
Proof.
  induction 1 as [|x l1 l2 Hs IH|x l1 l2 Hs IH]; intros H2.
  - constructor.
  - inversion H2; subst. now apply IH.
  - inversion H2 as [|? ? Hl2 Hx]; subst.
    constructor; [now apply IH|].
    rewrite Forall_forall in *. intros y Hy.
    apply Hx. now apply (sublist_In l1 l2).
Qed.
End SublistFacts.

(** ** The scenario of the specification *)

(** Scores 95, 40, 35, 10: the thresholds are 66.5 and 38. *)
Example scenario_thresholds :
  let p := [row 95 false; row 40 false; row 35 false; row 10 false] in
  (high_threshold p == 133 # 2)%Q /\ (mid_threshold p == 38 # 1)%Q.
Proof. split; reflexivity. Qed.

Example scenario_tiers :
  build_digest [row 95 false; row 40 false; row 35 false; row 10 false]
  = {| must_know := [item_of 95 false];
       worth_a_look := [item_of 40 false];
       quick_hits := [item_of 35 false; item_of 10 false] |}.
Proof. reflexivity. Qed.

(** The sort is descending and keeps rows of equal score in pool order. *)
Example scenario_sort :
  map relevance_score
      (sorted_items [row 40 false; row 95 true; row 40 true; row 10 false])
  = [95; 40; 40; 10]
  /\ map must_read
       (sorted_items [row 40 false; row 95 true; row 40 true; row 10 false])
     = [true; false; true; false].
Proof. split; reflexivity. Qed.

(** ** Facts about the thresholds *)

(** On scores 0..100 the float thresholds of the source and the rational
    thresholds of this embedding decide every comparison alike. *)
Lemma float_thresholds_agree :
  forallb (fun m => forallb (float_agrees m) stored_scores) stored_scores
  = true.
Proof. vm_compute. reflexivity. Qed.

(** Comparisons of the rationals that occur in the thresholds. *)
Lemma Qle_bool_scaled_l (m x c : Z) :
  Qle_bool (inject_Z m * (c # 10)) (inject_Z x) = (c * m <=? 10 * x).
Proof.
  unfold Qle_bool. cbn [Qnum Qden Qmult inject_Z Pos.mul].
  f_equal; lia.
Qed.

Lemma Qle_bool_scaled_r (a m c : Z) :
  Qle_bool (inject_Z a) (inject_Z m * (c # 10)) = (10 * a <=? c * m).
Proof.
  unfold Qle_bool. cbn [Qnum Qden Qmult inject_Z Pos.mul].
  f_equal; lia.
Qed.

Lemma Qle_bool_inject (a b : Z) :
  Qle_bool (inject_Z a) (inject_Z b) = (a <=? b).
Proof.
  unfold Qle_bool. cbn [Qnum Qden inject_Z].
  f_equal; lia.
Qed.

(** The comparisons against the thresholds, in integer arithmetic. *)
Lemma score_ge_high (m x : Z) :
  score_ge x (high_threshold_of m) = (7 * m <=? 10 * x) && (60 <=? x).
Proof.
  unfold score_ge, high_threshold_of, py_max.
  rewrite Qle_bool_scaled_r.
  destruct (Z.leb_spec (10 * 60) (7 * m));
    rewrite ?Qle_bool_scaled_l, ?Qle_bool_inject;
    destruct (Z.leb_spec (7 * m) (10 * x)), (Z.leb_spec 60 x);
    simpl; try reflexivity; lia.
Qed.

Lemma score_ge_mid (m x : Z) :
  score_ge x (mid_threshold_of m) = (4 * m <=? 10 * x) && (30 <=? x).
Proof.
  unfold score_ge, mid_threshold_of, py_max.
  rewrite Qle_bool_scaled_r.
  destruct (Z.leb_spec (10 * 30) (4 * m));
    rewrite ?Qle_bool_scaled_l, ?Qle_bool_inject;
    destruct (Z.leb_spec (4 * m) (10 * x)), (Z.leb_spec 30 x);
    simpl; try reflexivity; lia.
Qed.

Lemma score_lt_negb (x : Z) (t : Q) : score_lt x t = negb (score_ge x t).
Proof. reflexivity. Qed.

(** The floor: up to a best score of 85 the high threshold is 60. *)
Lemma high_threshold_floor (m : Z) :
  m < 60 -> high_threshold_of m = inject_Z 60.
Proof.
  intros Hm. unfold high_threshold_of, py_max.
  rewrite Qle_bool_scaled_r.
  destruct (Z.leb_spec (10 * 60) (7 * m)); [lia|reflexivity].
Qed.

Lemma fold_max_spec (xs : list Z) (x : Z) :
  x <= fold_left Z.max xs x
  /\ Forall (fun y => y <= fold_left Z.max xs x) xs
  /\ In (fold_left Z.max xs x) (x :: xs).
Proof.
  revert x. induction xs as [|y xs IH]; intros x; simpl.
  - repeat split; [lia|constructor|now left].
  - destruct (IH (Z.max x y)) as (H1 & H2 & H3).
    repeat split.
    + lia.
    + constructor; [lia|exact H2].
    + destruct H3 as [H3|H3]; [|now right; right].
      rewrite <- H3.
      destruct (Z.max_spec x y) as [[_ ->]|[_ ->]]; [right|]; now left.
Qed.

Lemma max_of_scores_upper (l : list Z) (x : Z) :
  In x l -> x <= max_of_scores l.
Proof.
  destruct l as [|y ys]; simpl; [tauto|].
  destruct (fold_max_spec ys y) as (H1 & H2 & _).
  rewrite Forall_forall in H2.
  intros [<-|Hx]; [exact H1|now apply H2].
Qed.

Lemma max_of_scores_In (l : list Z) : l <> [] -> In (max_of_scores l) l.
Proof.
  destruct l as [|y ys]; [congruence|intros _].
  apply (fold_max_spec ys y).
Qed.

(** ** Facts about slices of a descending list *)

Lemma sorted_firstn_skipn (l : list digest_item) (n : nat) (a b : digest_item) :
  StronglySorted ge_score l ->
  In a (firstn n l) -> In b (skipn n l) -> ge_score a b.
Proof.
  intros Hs. revert n. induction Hs as [|x l Hl IH Hx]; intros n Ha Hb.
  - destruct n; contradiction.
  - destruct n as [|n]; [contradiction|]. simpl in Ha, Hb.
    destruct Ha as [<-|Ha]; [|now apply (IH n)].
    rewrite Forall_forall in Hx. apply Hx.
    now apply (sublist_In _ _ _ (sublist_skipn n l)).
Qed.

Lemma firstn_nil_inv {A : Type} (n : nat) (l : list A) :
  firstn (S n) l = [] -> l = [].
Proof. destruct l; [reflexivity|discriminate]. Qed.

(** ** Facts about the stages of [build_digest] *)

Lemma sorted_items_In (p : list summary_row) (i : digest_item) :
  In i (sorted_items p) <-> In i (collect_items p).
Proof. apply sort_desc_In. Qed.

Lemma sorted_items_sorted (p : list summary_row) :
  StronglySorted ge_score (sorted_items p).
Proof. apply sort_desc_sorted. Qed.

Lemma sorted_items_stable (p : list summary_row) (v : Z) :
  with_score v (sorted_items p) = with_score v (collect_items p).
Proof. apply sort_desc_stable. Qed.

Lemma critical_candidates_sorted (p : list summary_row) :
  StronglySorted ge_score (critical_candidates p).
Proof.
  eapply sublist_sorted; [apply sublist_filter|apply sorted_items_sorted].
Qed.

Lemma notable_candidates_sorted (p : list summary_row) :
  StronglySorted ge_score (notable_candidates p).
Proof.
  eapply sublist_sorted; [apply sublist_filter|apply sorted_items_sorted].
Qed.

Lemma minor_candidates_sorted (p : list summary_row) :
  StronglySorted ge_score (minor_candidates p).
Proof.
  eapply sublist_sorted; [apply sublist_filter|apply sorted_items_sorted].
Qed.

(** The two ways through lines 101-103. *)
Lemma fallback_fires (d : digest) :
  must_know d = [] -> worth_a_look d <> [] ->
  fallback d = {| must_know := firstn 2 (worth_a_look d);
                  worth_a_look := skipn 2 (worth_a_look d);
                  quick_hits := quick_hits d |}.
Proof.
  unfold fallback. intros -> Hw.
  destruct (worth_a_look d); [congruence|reflexivity].
Qed.

Lemma fallback_idle (d : digest) :
  must_know d <> [] \/ worth_a_look d = [] -> fallback d = d.
Proof.
  unfold fallback. intros [Hm| ->].
  - destruct (must_know d); [congruence|reflexivity].
  - now destruct (must_know d).
Qed.

Lemma fallback_cases (d : digest) :
  (must_know d = [] /\ worth_a_look d <> []) \/
  (must_know d <> [] \/ worth_a_look d = []).
Proof.
  destruct (must_know d), (worth_a_look d);
    try (right; right; reflexivity);
    try (right; left; discriminate).
  left. split; [reflexivity|discriminate].
Qed.

Lemma fallback_quick_hits (d : digest) :
  quick_hits (fallback d) = quick_hits d.
Proof. unfold fallback. now destruct (must_know d), (worth_a_look d). Qed.

(** The fallback moves items between the first two tiers and loses none. *)
Lemma fallback_app (d : digest) :
  must_know (fallback d) ++ worth_a_look (fallback d)
  = must_know d ++ worth_a_look d.
Proof.
  destruct (fallback_cases d) as [[Hm Hw]|H].
  - rewrite (fallback_fires d Hm Hw), Hm.
    cbn [must_know worth_a_look app]. apply firstn_skipn.
  - now rewrite (fallback_idle d H).
Qed.

(** Project the fields of the tiers in the goal. *)
Ltac tiers := cbn [must_know worth_a_look quick_hits truncated_tiers].

(** Reason on [build_digest p] along the two ways through the fallback:
    first the one where it fires, then the one where it does not. *)
Ltac by_fallback p :=
  let Hm := fresh "Hm" in
  let Hw := fresh "Hw" in
  let H := fresh "H" in
  unfold build_digest;
  destruct (fallback_cases (truncated_tiers p)) as [[Hm Hw]|H];
  [ rewrite (fallback_fires _ Hm Hw);
    cbn [must_know truncated_tiers] in Hm;
    apply firstn_nil_inv in Hm
  | rewrite (fallback_idle _ H) ];
  tiers.

(** Where the members of each output tier come from. *)
Lemma must_know_origin (p : list summary_row) (i : digest_item) :
  In i (must_know (build_digest p)) ->
  In i (firstn 3 (critical_candidates p))
  \/ (critical_candidates p = [] /\ In i (firstn 2 (notable_candidates p))).
Proof.
  by_fallback p.
  - rewrite firstn_firstn. now right.
  - now left.
Qed.

Lemma worth_a_look_origin (p : list summary_row) (i : digest_item) :
  In i (worth_a_look (build_digest p)) -> In i (notable_candidates p).
Proof.
  by_fallback p.
  - intros Hi.
    apply (sublist_In _ _ _ (sublist_skipn 2 _)) in Hi.
    now apply (sublist_In _ _ _ (sublist_firstn 7 _)) in Hi.
  - apply sublist_In, sublist_firstn.
Qed.

Lemma quick_hits_origin (p : list summary_row) (i : digest_item) :
  In i (quick_hits (build_digest p)) -> In i (minor_candidates p).
Proof.
  unfold build_digest. rewrite fallback_quick_hits. tiers.
  apply sublist_In, sublist_firstn.
Qed.

(** Every output tier is a sublist of the sorted items. *)
Lemma must_know_sublist (p : list summary_row) :
  sublist (must_know (build_digest p)) (sorted_items p).
Proof.
  by_fallback p.
  - eapply sublist_trans; [apply sublist_firstn|].
    eapply sublist_trans; [apply sublist_firstn|apply sublist_filter].
  - eapply sublist_trans; [apply sublist_firstn|apply sublist_filter].
Qed.

Lemma worth_a_look_sublist (p : list summary_row) :
  sublist (worth_a_look (build_digest p)) (sorted_items p).
Proof.
  by_fallback p.
  - eapply sublist_trans; [apply sublist_skipn|].
    eapply sublist_trans; [apply sublist_firstn|apply sublist_filter].
  - eapply sublist_trans; [apply sublist_firstn|apply sublist_filter].
Qed.

Lemma quick_hits_sublist (p : list summary_row) :
  sublist (quick_hits (build_digest p)) (sorted_items p).
Proof.
  unfold build_digest. rewrite fallback_quick_hits. tiers.
  eapply sublist_trans; [apply sublist_firstn|apply sublist_filter].
Qed.

(** What the three comprehensions accept, in integer arithmetic. *)
Lemma is_must_know_spec (p : list summary_row) (i : digest_item) :
  is_must_know (high_threshold p) i = true <->
  must_read i = true
  \/ (7 * max_score p <= 10 * relevance_score i /\ 60 <= relevance_score i).
Proof.
  unfold is_must_know, high_threshold.
  rewrite score_ge_high, orb_true_iff, andb_true_iff, !Z.leb_le. tauto.
Qed.

Lemma is_worth_a_look_spec (p : list summary_row) (i : digest_item) :
  is_worth_a_look (mid_threshold p) (high_threshold p) i = true <->
  must_read i = false
  /\ (4 * max_score p <= 10 * relevance_score i /\ 30 <= relevance_score i)
  /\ ~ (7 * max_score p <= 10 * relevance_score i /\ 60 <= relevance_score i).
Proof.
  unfold is_worth_a_look, mid_threshold, high_threshold.
  rewrite score_lt_negb, score_ge_mid, score_ge_high.
  rewrite !andb_true_iff, !negb_true_iff, andb_false_iff.
  rewrite !Z.leb_le, !Z.leb_gt.
  split; intros (Hm & Hmid & Hhigh); (split; [exact Hm|]); lia.
Qed.

Lemma is_quick_hit_spec (p : list summary_row) (i : digest_item) :
  is_quick_hit (mid_threshold p) i = true <->
  0 < relevance_score i
  /\ ~ (4 * max_score p <= 10 * relevance_score i /\ 30 <= relevance_score i).
Proof.
  unfold is_quick_hit, mid_threshold.
  rewrite score_lt_negb, score_ge_mid.
  rewrite andb_true_iff, negb_true_iff, andb_false_iff.
  rewrite Z.ltb_lt, !Z.leb_gt. lia.
Qed.

(** ** The properties of the specification *)

(** C1 (partition exclusivity; the code departs from it). The
    comprehension for [quick_hits] does not test [must_read], unlike the
    one for [worth_a_look]: a single must-read item with score 20 is
    returned both in [must_know] and in [quick_hits]. *)
Theorem must_read_low_score_in_two_tiers :
  build_digest [row 20 true]
  = {| must_know := [item_of 20 true];
       worth_a_look := [];
       quick_hits := [item_of 20 true] |}.
Proof. reflexivity. Qed.

(** C4, as stated, fails: a must-read item with score 0 is placed in
    [must_know]. *)
Lemma zero_score_must_read_is_critical :
  relevance_score (item_of 0 true) = 0
  /\ build_digest [row 0 true]
     = {| must_know := [item_of 0 true];
          worth_a_look := [];
          quick_hits := [] |}.
Proof. split; reflexivity. Qed.

(** C4 (zero-score exclusion, amended). For every pool, an item whose
    [relevance_score] is 0 and whose [must_read] flag is false appears in
    none of the three tiers returned by [build_digest]. *)
Theorem zero_score_exclusion (p : list summary_row) (i : digest_item) :
  relevance_score i = 0 -> must_read i = false ->
  ~ In i (must_know (build_digest p))
  /\ ~ In i (worth_a_look (build_digest p))
  /\ ~ In i (quick_hits (build_digest p)).
Proof.
  intros Hs Hm. repeat split; intros Hi.
  - apply must_know_origin in Hi. destruct Hi as [Hi|[_ Hi]].
    + apply (sublist_In _ _ _ (sublist_firstn 3 _)) in Hi.
      apply filter_In in Hi. destruct Hi as [_ Hi].
      apply is_must_know_spec in Hi. destruct Hi; [congruence|lia].
    + apply (sublist_In _ _ _ (sublist_firstn 2 _)) in Hi.
      apply filter_In in Hi. destruct Hi as [_ Hi].
      apply is_worth_a_look_spec in Hi. lia.
  - apply worth_a_look_origin, filter_In in Hi. destruct Hi as [_ Hi].
    apply is_worth_a_look_spec in Hi. lia.
  - apply quick_hits_origin, filter_In in Hi. destruct Hi as [_ Hi].
    apply is_quick_hit_spec in Hi. lia.
Qed.

Lemma zero_score_exclusion_witness :
  let p := [row 50 false; row 0 false] in
  relevance_score (item_of 0 false) = 0
  /\ must_read (item_of 0 false) = false
  /\ ~ In (item_of 0 false) (must_know (build_digest p))
  /\ ~ In (item_of 0 false) (worth_a_look (build_digest p))
  /\ ~ In (item_of 0 false) (quick_hits (build_digest p)).
Proof.
  intros p. split; [reflexivity|]. split; [reflexivity|].
  apply (zero_score_exclusion p (item_of 0 false)); reflexivity.
Defined.

(** C9 (empty pool). [build_digest] is a total function; on the empty
    pool it returns the digest whose three tiers are empty, and so it
    does on every pool none of whose rows has an item record. *)
Theorem empty_pool_yields_empty_digest :
  build_digest [] = empty_digest
  /\ forall p : list summary_row,
       Forall (fun s => item_record (row_item s) = None) p ->
       build_digest p = empty_digest.
Proof.
  split; [reflexivity|].
  intros p Hp.
  assert (Hc : collect_items p = []).
  { induction Hp as [|s p Hs _ IH]; simpl; [reflexivity|].
    now rewrite Hs. }
  unfold build_digest, truncated_tiers, critical_candidates,
    notable_candidates, minor_candidates, sorted_items.
  rewrite Hc. reflexivity.
Qed.

Lemma empty_pool_yields_empty_digest_witness :
  let p := [orphan_row 90 true;
            mkRow (ItemList []) None None None (Some 70) None;
            mkRow (ItemObject []) None None None (Some 40) (Some true)] in
  build_digest p = empty_digest.
Proof.
  intros p. apply (proj2 empty_pool_yields_empty_digest p).
  repeat constructor.
Defined.

(** C10 (overflow of the critical tier is dropped). For every pool, an
    item that is not must-read, whose score reaches the high threshold
    and which is not among the first three critical candidates appears
    in no tier of the output: neither of the lower comprehensions
    accepts it. *)
Theorem critical_overflow_dropped (p : list summary_row) (i : digest_item) :
  must_read i = false ->
  score_ge (relevance_score i) (high_threshold p) = true ->
  ~ In i (firstn 3 (critical_candidates p)) ->
  ~ In i (must_know (build_digest p))
  /\ ~ In i (worth_a_look (build_digest p))
  /\ ~ In i (quick_hits (build_digest p)).
Proof.
  intros Hm Hge Hout.
  unfold high_threshold in Hge. rewrite score_ge_high in Hge.
  apply andb_true_iff in Hge. rewrite !Z.leb_le in Hge.
  assert (Hw : ~ In i (notable_candidates p)).
  { intros Hi. apply filter_In in Hi. destruct Hi as [_ Hi].
    apply is_worth_a_look_spec in Hi. tauto. }
  repeat split; intros Hi.
  - apply must_know_origin in Hi. destruct Hi as [Hi|[_ Hi]]; [tauto|].
    apply Hw. now apply (sublist_In _ _ _ (sublist_firstn 2 _)).
  - now apply worth_a_look_origin in Hi.
  - apply quick_hits_origin, filter_In in Hi. destruct Hi as [_ Hi].
    apply is_quick_hit_spec in Hi. lia.
Qed.

Lemma critical_overflow_dropped_witness :
  let p := [row 90 false; row 89 false; row 88 false; row 87 false] in
  let i := item_of 87 false in
  must_know (build_digest p)
  = [item_of 90 false; item_of 89 false; item_of 88 false]
  /\ ~ In i (must_know (build_digest p))
  /\ ~ In i (worth_a_look (build_digest p))
  /\ ~ In i (quick_hits (build_digest p)).
Proof.
  intros p i. split; [reflexivity|].
  apply (critical_overflow_dropped p i).
  - reflexivity.
  - reflexivity.
  - vm_compute. intros [H|[H|[H|[]]]]; discriminate H.
Defined.

(** [build_digest] reads its argument through [collect_items] only. *)
Lemma build_digest_ext (p q : list summary_row) :
  collect_items p = collect_items q -> build_digest p = build_digest q.
Proof.
  intros H.
  unfold build_digest, truncated_tiers, critical_candidates,
    notable_candidates, minor_candidates, high_threshold, mid_threshold,
    max_score, sorted_items.
  now rewrite H.
Qed.

Lemma collect_items_default_score (p : list summary_row) :
  collect_items (map with_default_score p) = collect_items p.
Proof.
  induction p as [|s p IH]; simpl; [reflexivity|].
  destruct (item_record (row_item s)); [|exact IH].
  now rewrite IH.
Qed.

Lemma clamp_score_in_range (x : Z) : 0 <= x <= 100 -> clamp_score x = x.
Proof. unfold clamp_score. lia. Qed.

Lemma collect_items_clamped_score (p : list summary_row) :
  Forall score_in_range p ->
  collect_items (map with_clamped_score p) = collect_items p.
Proof.
  induction 1 as [|s p Hs _ IH]; simpl; [reflexivity|].
  destruct (item_record (row_item s)); [|exact IH].
  rewrite IH. f_equal.
  unfold make_item, with_clamped_score, set_score. simpl.
  now rewrite (clamp_score_in_range _ Hs).
Qed.

(** C2, as stated, fails: a score of 150 is used as it is, which raises
    both thresholds; the item scoring 50 falls to [quick_hits], whereas
    after clamping it would be in [worth_a_look]. *)
Lemma clamping_not_applied :
  let p := [row 150 false; row 50 false] in
  build_digest p
  = {| must_know := [item_of 150 false];
       worth_a_look := [];
       quick_hits := [item_of 50 false] |}
  /\ build_digest (map with_clamped_score p)
     = {| must_know := [item_of 100 false];
          worth_a_look := [item_of 50 false];
          quick_hits := [] |}
  /\ build_digest p <> build_digest (map with_clamped_score p).
Proof.
  intros p. split; [reflexivity|]. split; [reflexivity|].
  intros H. apply (f_equal quick_hits) in H. discriminate H.
Qed.

(** The items carry the scores of their rows, 0 standing for an absent
    key, in the order of the rows. *)
Lemma collect_items_scores (p : list summary_row) :
  map relevance_score (collect_items p)
  = map row_score (filter has_item_record p).
Proof.
  induction p as [|s p IH]; simpl; [reflexivity|].
  unfold has_item_record.
  destruct (item_record (row_item s)); simpl; [|exact IH].
  now rewrite IH.
Qed.

(** [max] does not depend on the order of the scores. *)
Lemma max_of_scores_perm (l l' : list Z) :
  Permutation l l' -> max_of_scores l = max_of_scores l'.
Proof.
  intros Hp. destruct l as [|x l].
  - apply Permutation_nil in Hp. now subst.
  - assert (Hl : x :: l <> []) by discriminate.
    assert (Hl' : l' <> []).
    { intros ->. apply Permutation_sym, Permutation_nil in Hp.
      discriminate. }
    pose proof (max_of_scores_In _ Hl) as Hm.
    pose proof (max_of_scores_In _ Hl') as Hm'.
    apply (Permutation_in _ Hp) in Hm.
    apply (Permutation_in _ (Permutation_sym Hp)) in Hm'.
    apply max_of_scores_upper in Hm, Hm'. lia.
Qed.

(** C2 (score normalisation, amended). For every pool, [build_digest]
    treats a row whose [relevance_score] key is absent as having score
    0: the output equals the output for the pool with the key written
    out as 0. It does not clamp: every item carries the score of its
    row as it is given, whatever its size or sign, [max_score] is the
    maximum of these scores, and every item of every tier has the score
    of a row of the pool. The output equals the output for the pool
    with every score replaced by [min(100, max(0, score))] whenever all
    scores of the pool lie in [0,100]. *)
Theorem score_defaulting_without_clamping (p : list summary_row) :
  build_digest p = build_digest (map with_default_score p)
  /\ map relevance_score (collect_items p)
     = map row_score (filter has_item_record p)
  /\ max_score p = max_of_scores (map row_score (filter has_item_record p))
  /\ (forall i,
        In i (must_know (build_digest p) ++ worth_a_look (build_digest p)
              ++ quick_hits (build_digest p)) ->
        exists s, In s p /\ has_item_record s = true
                  /\ relevance_score i = row_score s)
  /\ (Forall score_in_range p ->
      build_digest p = build_digest (map with_clamped_score p)).
Proof.
  split; [|split; [|split; [|split]]].
  - apply build_digest_ext. symmetry. apply collect_items_default_score.
  - apply collect_items_scores.
  - unfold max_score. rewrite <- collect_items_scores.
    apply max_of_scores_perm, Permutation_map, sort_desc_perm.
  - intros i Hi.
    assert (Hs : In i (sorted_items p)).
    { apply in_app_or in Hi. destruct Hi as [Hi|Hi];
        [|apply in_app_or in Hi; destruct Hi as [Hi|Hi]].
      - now apply (sublist_In _ _ _ (must_know_sublist p)).
      - now apply (sublist_In _ _ _ (worth_a_look_sublist p)).
      - now apply (sublist_In _ _ _ (quick_hits_sublist p)). }
    apply sorted_items_In, (in_map relevance_score) in Hs.
    rewrite collect_items_scores in Hs.
    apply in_map_iff in Hs. destruct Hs as (s & Hscore & Hs).
    apply filter_In in Hs. destruct Hs as [Hs Hrec].
    exists s. now repeat split.
  - intros Hp. apply build_digest_ext. symmetry.
    now apply collect_items_clamped_score.
Qed.

Lemma score_defaulting_without_clamping_witness :
  let p := [row 95 false;
            mkRow (ItemObject sample_item) None None None None None;
            row 40 true] in
  Forall score_in_range p
  /\ build_digest p = build_digest (map with_clamped_score p).
Proof.
  intros p.
  assert (Hp : Forall score_in_range p).
  { repeat constructor; unfold row_score; simpl; lia. }
  split; [exact Hp|].
  exact (proj2 (proj2 (proj2 (proj2
           (score_defaulting_without_clamping p)))) Hp).
Defined.

(** C3, as stated, fails: the only must-read item of the pool has a
    positive score, but three items that reach the high threshold stand
    before it in the sorted list and take the three slots. *)
Lemma must_read_item_outscored :
  let p := [row 90 false; row 85 false; row 80 false; row 20 true] in
  filter must_read (collect_items p) = [item_of 20 true]
  /\ 0 < relevance_score (item_of 20 true)
  /\ must_know (build_digest p)
     = [item_of 90 false; item_of 85 false; item_of 80 false]
  /\ ~ In (item_of 20 true) (must_know (build_digest p)).
Proof.
  intros p. repeat split; try reflexivity.
  vm_compute. intros [H|[H|[H|[]]]]; discriminate H.
Qed.

(** C3 (must-read elevation, amended). For every pool, the candidates
    for the critical tier are exactly the items with [must_read = true],
    whatever their score, and the items whose score is at or above the
    high threshold, in descending score order. Whenever the pool has a
    candidate, in particular whenever it holds a must-read item, the
    critical tier is the first three candidates, must-read or not, and
    no candidate left out scores higher than one taken (with no
    candidate the tier is left to the fallback). Hence when the pool has
    at most 3 candidates every must-read item appears in the critical
    tier. *)
Theorem must_read_elevation (p : list summary_row) :
  (forall i, In i (critical_candidates p) <->
             In i (collect_items p)
             /\ (must_read i = true
                 \/ score_ge (relevance_score i) (high_threshold p) = true))
  /\ StronglySorted ge_score (critical_candidates p)
  /\ (critical_candidates p <> [] ->
      must_know (build_digest p) = firstn 3 (critical_candidates p))
  /\ keeps_top 3 (critical_candidates p)
  /\ (forall i, In i (collect_items p) -> must_read i = true ->
        In i (critical_candidates p)
        /\ must_know (build_digest p) = firstn 3 (critical_candidates p)
        /\ ((length (critical_candidates p) <= 3)%nat ->
            In i (must_know (build_digest p)))).
Proof.
  assert (Hcand : forall i, In i (critical_candidates p) <->
            In i (collect_items p)
            /\ (must_read i = true
                \/ score_ge (relevance_score i) (high_threshold p) = true)).
  { intros i. unfold critical_candidates, is_must_know.
    now rewrite filter_In, sorted_items_In, orb_true_iff. }
  assert (Hk : critical_candidates p <> [] ->
               must_know (build_digest p) = firstn 3 (critical_candidates p)).
  { intros Hne. unfold build_digest. rewrite fallback_idle; [reflexivity|].
    left. cbn [must_know truncated_tiers].
    destruct (critical_candidates p); [congruence|discriminate]. }
  split; [exact Hcand|]. split; [apply critical_candidates_sorted|].
  split; [exact Hk|]. split.
  - intros a b. apply sorted_firstn_skipn, critical_candidates_sorted.
  - intros i Hi Hm.
    assert (Hc : In i (critical_candidates p)) by (apply Hcand; auto).
    assert (Hne : critical_candidates p <> [])
      by (intros E; rewrite E in Hc; contradiction).
    split; [exact Hc|]. split; [now apply Hk|].
    intros Hlen. rewrite (Hk Hne), firstn_all2; assumption.
Qed.

Lemma must_read_elevation_witness :
  let p := [row 90 false; row 20 true; row 10 true] in
  In (item_of 90 false) (critical_candidates p)
  /\ In (item_of 20 true) (must_know (build_digest p)).
Proof.
  intros p. split.
  - apply (proj1 (must_read_elevation p) (item_of 90 false)).
    split; [left; reflexivity|right; reflexivity].
  - refine (proj2 (proj2
              (proj2 (proj2 (proj2 (proj2 (must_read_elevation p))))
                     (item_of 20 true) _ _)) _).
    + right. left. reflexivity.
    + reflexivity.
    + vm_compute. lia.
Defined.

(** C5, as stated, fails: a row without an item record does not enter
    [items], so its score does not count towards [max_score]; the best
    score over the whole pool is 100 here, and the thresholds are
    derived from 50. *)
Lemma max_score_skips_rows_without_item :
  let p := [orphan_row 100 false; row 50 false] in
  pool_max_score p = 100
  /\ max_score p = 50
  /\ high_threshold p = inject_Z 60
  /\ ~ (high_threshold p == high_threshold_of (pool_max_score p))%Q.
Proof.
  intros p. repeat split; try reflexivity.
  vm_compute. intros H. discriminate H.
Qed.

(** C5 (threshold derivation, amended). For every pool,
    [high_threshold = max(max_score * 0.7, 60)] and
    [mid_threshold = max(max_score * 0.4, 30)], where [max_score] is the
    maximum [relevance_score] over the rows of the pool that have an item
    record, and 0 when there is none; whenever all their scores are
    below 60, [high_threshold] is exactly 60. *)
Theorem threshold_derivation (p : list summary_row) :
  high_threshold p
  = py_max (inject_Z (max_score p) * (7 # 10)) (inject_Z 60)
  /\ mid_threshold p
     = py_max (inject_Z (max_score p) * (4 # 10)) (inject_Z 30)
  /\ (collect_items p = [] -> max_score p = 0)
  /\ (collect_items p <> [] ->
      In (max_score p) (map relevance_score (collect_items p)))
  /\ Forall (fun i => relevance_score i <= max_score p) (collect_items p)
  /\ (Forall (fun i => relevance_score i < 60) (collect_items p) ->
      high_threshold p = inject_Z 60).
Proof.
  assert (Hin : collect_items p <> [] ->
                In (max_score p) (map relevance_score (collect_items p))).
  { intros Hne. unfold max_score.
    assert (Hs : map relevance_score (sorted_items p) <> []).
    { intros Hs. apply map_eq_nil in Hs. now apply sort_desc_nil_iff in Hs. }
    apply max_of_scores_In, in_map_iff in Hs.
    destruct Hs as (i & Hi & Hs). rewrite <- Hi.
    apply in_map. now apply sorted_items_In. }
  assert (Hnil : collect_items p = [] -> max_score p = 0).
  { intros Hc. unfold max_score, sorted_items. now rewrite Hc. }
  split; [reflexivity|]. split; [reflexivity|].
  split; [exact Hnil|]. split; [exact Hin|]. split.
  - apply Forall_forall. intros i Hi. unfold max_score.
    apply max_of_scores_upper, in_map. now apply sorted_items_In.
  - intros Hlow. apply high_threshold_floor.
    destruct (collect_items p) as [|i l] eqn:Hc.
    + rewrite Hnil; [lia|reflexivity].
    + assert (Hne : i :: l <> []) by discriminate.
      apply Hin, in_map_iff in Hne. destruct Hne as (j & Hj & Hm).
      rewrite Forall_forall in Hlow. rewrite <- Hj. now apply Hlow.
Qed.

Lemma threshold_derivation_witness :
  let p := [orphan_row 100 false; row 50 false; row 45 true] in
  high_threshold p = inject_Z 60.
Proof.
  intros p.
  apply (proj2 (proj2 (proj2 (proj2 (proj2 (threshold_derivation p)))))).
  repeat constructor.
Defined.

(** C6 (fallback promotion). For every pool: when the critical tier is
    empty after partitioning and truncation and the notable tier is not,
    [build_digest] returns the first two items of notable as the critical
    tier, which is therefore not empty, and the rest of notable as the
    notable tier; when the notable tier is empty the fallback does not
    fire and the truncated tiers are returned as they are, all three
    being empty for the empty pool. *)
Theorem fallback_promotion (p : list summary_row) :
  (must_know (truncated_tiers p) = [] ->
   worth_a_look (truncated_tiers p) <> [] ->
   must_know (build_digest p) = firstn 2 (worth_a_look (truncated_tiers p))
   /\ worth_a_look (build_digest p)
      = skipn 2 (worth_a_look (truncated_tiers p))
   /\ quick_hits (build_digest p) = quick_hits (truncated_tiers p)
   /\ must_know (build_digest p) <> [])
  /\ (worth_a_look (truncated_tiers p) = [] ->
      build_digest p = truncated_tiers p)
  /\ build_digest [] = empty_digest.
Proof.
  split; [|split; [|reflexivity]].
  - intros Hm Hw. unfold build_digest.
    rewrite (fallback_fires _ Hm Hw). cbn [must_know worth_a_look quick_hits].
    repeat split.
    destruct (worth_a_look (truncated_tiers p)); [congruence|discriminate].
  - intros Hw. apply fallback_idle. now right.
Qed.

Lemma fallback_promotion_witness :
  let p := [row 35 false; row 50 false; row 10 false; row 40 false] in
  must_know (build_digest p) = [item_of 50 false; item_of 40 false]
  /\ worth_a_look (build_digest p) = [item_of 35 false]
  /\ quick_hits (build_digest p) = [item_of 10 false]
  /\ must_know (build_digest p) <> [].
Proof.
  intros p.
  refine (proj1 (fallback_promotion p) _ _).
  - reflexivity.
  - discriminate.
Defined.

(** C7 (tier ordering with stable ties). For every pool, each tier of
    the output is in non-increasing order of [relevance_score], and within
    each tier the items of equal score stand in the order in which their
    rows stand in the pool. *)
Theorem tier_ordering_stable (p : list summary_row) :
  keeps_order (collect_items p) (must_know (build_digest p))
  /\ keeps_order (collect_items p) (worth_a_look (build_digest p))
  /\ keeps_order (collect_items p) (quick_hits (build_digest p)).
Proof.
  assert (H : forall t, sublist t (sorted_items p) ->
                        keeps_order (collect_items p) t).
  { intros t Ht. split.
    - eapply sublist_sorted; [exact Ht|apply sorted_items_sorted].
    - intros v. rewrite <- sorted_items_stable.
      now apply sublist_filter_mono. }
  split; [|split]; apply H.
  - apply must_know_sublist.
  - apply worth_a_look_sublist.
  - apply quick_hits_sublist.
Qed.

(** C8 (cap enforcement). For every pool, the output has at most 3
    critical, 7 notable and 10 minor items, the fallback included; the
    tiers hold exactly the first 3, 7 and 10 candidates of their
    comprehensions (the fallback only moves items from notable to
    critical), and each cut keeps the highest-scoring candidates. *)
Theorem cap_enforcement (p : list summary_row) :
  let d := build_digest p in
  (length (must_know d) <= 3)%nat
  /\ (length (worth_a_look d) <= 7)%nat
  /\ (length (quick_hits d) <= 10)%nat
  /\ must_know d ++ worth_a_look d
     = firstn 3 (critical_candidates p) ++ firstn 7 (notable_candidates p)
  /\ quick_hits d = firstn 10 (minor_candidates p)
  /\ keeps_top 3 (critical_candidates p)
  /\ keeps_top 7 (notable_candidates p)
  /\ keeps_top 10 (minor_candidates p).
Proof.
  intros d. subst d.
  assert (Hq : quick_hits (build_digest p) = firstn 10 (minor_candidates p)).
  { unfold build_digest. now rewrite fallback_quick_hits. }
  assert (Hlen : (length (must_know (build_digest p)) <= 3)%nat
                 /\ (length (worth_a_look (build_digest p)) <= 7)%nat).
  { by_fallback p.
    - rewrite length_skipn.
      pose proof (firstn_le_length 2 (firstn 7 (notable_candidates p))).
      pose proof (firstn_le_length 7 (notable_candidates p)).
      lia.
    - split; apply firstn_le_length. }
  destruct Hlen as [Hl1 Hl2].
  split; [exact Hl1|]. split; [exact Hl2|]. split.
  { rewrite Hq. apply firstn_le_length. }
  split; [apply fallback_app|]. split; [exact Hq|].
  repeat split; intros a b; apply sorted_firstn_skipn.
  - apply critical_candidates_sorted.
  - apply notable_candidates_sorted.
  - apply minor_candidates_sorted.
Qed.

(** * The code around [build_digest] *)

(** ** Further facts about [build_digest] *)

Lemma sort_desc_sorted_id {A : Type} (key : A -> Z) (l : list A) :
  StronglySorted (fun a b => key b <= key a) l -> sort_desc key l = l.
Proof.
  intros Hs. symmetry. apply sort_desc_unique; [exact Hs|reflexivity].
Qed.

Lemma max_score_upper (p : list summary_row) (i : digest_item) :
  In i (collect_items p) -> relevance_score i <= max_score p.
Proof.
  intros Hi. unfold max_score.
  apply max_of_scores_upper, in_map. now apply sorted_items_In.
Qed.

Lemma max_score_attained (p : list summary_row) :
  collect_items p <> [] ->
  exists i, In i (collect_items p) /\ relevance_score i = max_score p.
Proof.
  intros Hne. unfold max_score.
  assert (Hs : map relevance_score (sorted_items p) <> []).
  { intros Hs. apply map_eq_nil in Hs. now apply sort_desc_nil_iff in Hs. }
  apply max_of_scores_In, in_map_iff in Hs.
  destruct Hs as (i & Hi & Hs). exists i. split; [|exact Hi].
  now apply sorted_items_In.
Qed.

(** Membership in the three candidate lists. *)
Lemma critical_candidates_In (p : list summary_row) (i : digest_item) :
  In i (critical_candidates p) <->
  In i (collect_items p)
  /\ (must_read i = true
      \/ (7 * max_score p <= 10 * relevance_score i
          /\ 60 <= relevance_score i)).
Proof.
  unfold critical_candidates.
  now rewrite filter_In, sorted_items_In, is_must_know_spec.
Qed.

Lemma notable_candidates_In (p : list summary_row) (i : digest_item) :
  In i (notable_candidates p) <->
  In i (collect_items p)
  /\ must_read i = false
  /\ (4 * max_score p <= 10 * relevance_score i /\ 30 <= relevance_score i)
  /\ ~ (7 * max_score p <= 10 * relevance_score i
        /\ 60 <= relevance_score i).
Proof.
  unfold notable_candidates.
  now rewrite filter_In, sorted_items_In, is_worth_a_look_spec.
Qed.

Lemma minor_candidates_In (p : list summary_row) (i : digest_item) :
  In i (minor_candidates p) <->
  In i (collect_items p)
  /\ 0 < relevance_score i
  /\ ~ (4 * max_score p <= 10 * relevance_score i
        /\ 30 <= relevance_score i).
Proof.
  unfold minor_candidates.
  now rewrite filter_In, sorted_items_In, is_quick_hit_spec.
Qed.

(** Every item that is must-read or scores above 0 is a candidate of
    some comprehension. *)
Lemma candidate_somewhere (p : list summary_row) (i : digest_item) :
  In i (collect_items p) ->
  must_read i = true \/ 0 < relevance_score i ->
  In i (critical_candidates p) \/ In i (notable_candidates p)
  \/ In i (minor_candidates p).
Proof.
  intros Hi Hpos.
  rewrite critical_candidates_In, notable_candidates_In, minor_candidates_In.
  destruct (must_read i) eqn:Hm; [left; split; [exact Hi|now left]|].
  destruct Hpos as [Hpos|Hpos]; [discriminate|].
  destruct (Z_le_dec (7 * max_score p) (10 * relevance_score i));
    destruct (Z_le_dec 60 (relevance_score i));
    destruct (Z_le_dec (4 * max_score p) (10 * relevance_score i));
    destruct (Z_le_dec 30 (relevance_score i));
    try (left; split; [exact Hi|right; lia]);
    try (right; left; repeat split; try assumption; lia);
    right; right; repeat split; try assumption; lia.
Qed.

Lemma output_first_two_tiers (p : list summary_row) :
  must_know (build_digest p) ++ worth_a_look (build_digest p)
  = firstn 3 (critical_candidates p) ++ firstn 7 (notable_candidates p).
Proof. unfold build_digest. apply fallback_app. Qed.

Lemma output_quick_hits (p : list summary_row) :
  quick_hits (build_digest p) = firstn 10 (minor_candidates p).
Proof. unfold build_digest. now rewrite fallback_quick_hits. Qed.

(** X1 (coverage below the caps). For every pool in which no
    comprehension yields more candidates than its cap (3, 7 and 10),
    every item that is must-read or scores above 0 appears in some tier
    of the output of [build_digest]. *)
Theorem no_item_lost_below_caps (p : list summary_row) (i : digest_item) :
  In i (collect_items p) ->
  must_read i = true \/ 0 < relevance_score i ->
  (length (critical_candidates p) <= 3)%nat ->
  (length (notable_candidates p) <= 7)%nat ->
  (length (minor_candidates p) <= 10)%nat ->
  In i (must_know (build_digest p)) \/ In i (worth_a_look (build_digest p))
  \/ In i (quick_hits (build_digest p)).
Proof.
  intros Hi Hpos H3 H7 H10.
  assert (Hmw : In i (critical_candidates p) \/ In i (notable_candidates p) ->
                In i (must_know (build_digest p))
                \/ In i (worth_a_look (build_digest p))).
  { intros H. apply in_app_or. rewrite output_first_two_tiers.
    rewrite !firstn_all2 by assumption. apply in_or_app. exact H. }
  destruct (candidate_somewhere p i Hi Hpos) as [H|[H|H]].
  - destruct Hmw as [H'|H']; auto.
  - destruct Hmw as [H'|H']; auto.
  - right. right. rewrite output_quick_hits, firstn_all2; assumption.
Qed.

Lemma no_item_lost_below_caps_witness :
  let p := [row 95 false; row 40 false; row 35 false; row 10 true;
            row 0 false] in
  In (item_of 10 true) (must_know (build_digest p))
  \/ In (item_of 10 true) (worth_a_look (build_digest p))
  \/ In (item_of 10 true) (quick_hits (build_digest p)).
Proof.
  intros p. apply (no_item_lost_below_caps p (item_of 10 true)).
  - right. right. right. left. reflexivity.
  - left. reflexivity.
  - vm_compute. lia.
  - vm_compute. lia.
  - vm_compute. lia.
Defined.

(** The members of the tiers deserve their place. *)
Lemma tier_member_reportable (p : list summary_row) (i : digest_item) :
  In i (must_know (build_digest p) ++ worth_a_look (build_digest p)
        ++ quick_hits (build_digest p)) ->
  In i (collect_items p)
  /\ (must_read i = true \/ 0 < relevance_score i).
Proof.
  rewrite app_assoc, output_first_two_tiers, output_quick_hits.
  intros H. apply in_app_or in H. destruct H as [H|H];
    [apply in_app_or in H; destruct H as [H|H]|].
  - apply (sublist_In _ _ _ (sublist_firstn 3 _)) in H.
    apply critical_candidates_In in H. destruct H as [Hi [H|H]].
    + split; [exact Hi|now left].
    + split; [exact Hi|right; lia].
  - apply (sublist_In _ _ _ (sublist_firstn 7 _)) in H.
    apply notable_candidates_In in H. split; [tauto|right; lia].
  - apply (sublist_In _ _ _ (sublist_firstn 10 _)) in H.
    apply minor_candidates_In in H. split; [tauto|right; lia].
Qed.

(** An item that is must-read or scores above 0 leaves no digest empty:
    the comprehension that accepts it keeps at least its first item. *)
Lemma reportable_item_fills_digest (p : list summary_row) (i : digest_item) :
  In i (collect_items p) ->
  must_read i = true \/ 0 < relevance_score i ->
  must_know (build_digest p) ++ worth_a_look (build_digest p)
  ++ quick_hits (build_digest p) <> [].
Proof.
  intros Hi Hpos.
  rewrite app_assoc, output_first_two_tiers, output_quick_hits.
  intros Hnil.
  apply app_eq_nil in Hnil. destruct Hnil as [Hnil Hq].
  apply app_eq_nil in Hnil. destruct Hnil as [Hc Hn].
  apply firstn_nil_inv in Hc, Hn, Hq.
  destruct (candidate_somewhere p i Hi Hpos) as [H|[H|H]];
    [rewrite Hc in H|rewrite Hn in H|rewrite Hq in H]; contradiction.
Qed.

(** X2 (empty digest). The three tiers returned by [build_digest] are
    all empty exactly when no row with an item record is must-read or
    scores above 0. *)
Theorem digest_empty_iff (p : list summary_row) :
  (must_know (build_digest p) = []
   /\ worth_a_look (build_digest p) = []
   /\ quick_hits (build_digest p) = [])
  <-> Forall (fun i => must_read i = false /\ relevance_score i <= 0)
             (collect_items p).
Proof.
  split.
  - intros (Hm & Hw & Hq). apply Forall_forall. intros i Hi.
    destruct (must_read i) eqn:Hmr.
    + elim (reportable_item_fills_digest p i Hi); [now left|].
      now rewrite Hm, Hw, Hq.
    + split; [reflexivity|].
      destruct (Z_le_dec (relevance_score i) 0) as [Hle|Hgt]; [exact Hle|].
      elim (reportable_item_fills_digest p i Hi); [right; lia|].
      now rewrite Hm, Hw, Hq.
  - intros Hall. rewrite Forall_forall in Hall.
    destruct (must_know (build_digest p) ++ worth_a_look (build_digest p)
              ++ quick_hits (build_digest p)) as [|i t] eqn:E.
    + apply app_eq_nil in E. destruct E as [Hm E].
      apply app_eq_nil in E. tauto.
    + destruct (tier_member_reportable p i) as [Hi Hr];
        [rewrite E; now left|].
      destruct (Hall i Hi) as [Hm Hs]. destruct Hr; [congruence|lia].
Qed.

Lemma NoDup_firstn_skipn {A : Type} (n : nat) (l : list A) (x : A) :
  NoDup l -> In x (firstn n l) -> In x (skipn n l) -> False.
Proof.
  intros Hnd. revert n. induction Hnd as [|y l Hy Hnd IH]; intros n H1 H2.
  - destruct n; contradiction.
  - destruct n as [|n]; [contradiction|]. simpl in H1, H2.
    destruct H1 as [<-|H1]; [|now apply (IH n)].
    apply Hy. now apply (sublist_In _ _ _ (sublist_skipn n l)).
Qed.

Lemma notable_candidates_NoDup (p : list summary_row) :
  NoDup (collect_items p) -> NoDup (notable_candidates p).
Proof.
  intros Hnd. apply NoDup_filter.
  eapply Permutation_NoDup; [|exact Hnd].
  symmetry. apply sort_desc_perm.
Qed.

Lemma sublist_NoDup {A : Type} (l1 l2 : list A) :
  sublist l1 l2 -> NoDup l2 -> NoDup l1.
Proof.
  induction 1 as [|x l1 l2 Hs IH|x l1 l2 Hs IH]; intros Hnd.
  - constructor.
  - inversion Hnd; subst. now apply IH.
  - inversion Hnd as [|? ? Hx Hl]; subst. constructor; [|now apply IH].
    intros Hin. apply Hx. now apply (sublist_In l1 l2).
Qed.

(** X3 (extent of the overlap of the tiers). For every pool whose
    collected items are pairwise different, no item is both in
    [must_know] and [worth_a_look], none is both in [worth_a_look] and
    [quick_hits], and an item that is both in [must_know] and
    [quick_hits] is must-read with a score above 0 and below the mid
    threshold. *)
Theorem tiers_overlap_only_on_low_must_read
  (p : list summary_row) (i : digest_item) :
  NoDup (collect_items p) ->
  (In i (must_know (build_digest p)) ->
   In i (worth_a_look (build_digest p)) -> False)
  /\ (In i (worth_a_look (build_digest p)) ->
      In i (quick_hits (build_digest p)) -> False)
  /\ (In i (must_know (build_digest p)) ->
      In i (quick_hits (build_digest p)) ->
      must_read i = true
      /\ 0 < relevance_score i
      /\ score_lt (relevance_score i) (mid_threshold p) = true).
Proof.
  intros Hnd. split; [|split].
  - by_fallback p; intros Hk Hl.
    + apply (NoDup_firstn_skipn 2 (firstn 7 (notable_candidates p)) i);
        try assumption.
      eapply sublist_NoDup; [apply sublist_firstn|].
      now apply notable_candidates_NoDup.
    + apply (sublist_In _ _ _ (sublist_firstn 3 _)) in Hk.
      apply (sublist_In _ _ _ (sublist_firstn 7 _)) in Hl.
      apply critical_candidates_In in Hk.
      apply notable_candidates_In in Hl.
      destruct Hk as [_ [Hk|Hk]]; destruct Hl as (_ & Hl1 & _ & Hl2);
        [congruence|tauto].
  - intros Hl Hq.
    apply worth_a_look_origin, notable_candidates_In in Hl.
    apply quick_hits_origin, minor_candidates_In in Hq. tauto.
  - intros Hk Hq.
    apply quick_hits_origin in Hq.
    assert (Hq' := Hq). apply filter_In in Hq'. destruct Hq' as [_ Hq'].
    unfold is_quick_hit in Hq'. apply andb_true_iff in Hq'.
    destruct Hq' as [Hpos Hlt]. apply Z.ltb_lt in Hpos.
    apply minor_candidates_In in Hq.
    apply must_know_origin in Hk. destruct Hk as [Hk|[_ Hk]].
    + apply (sublist_In _ _ _ (sublist_firstn 3 _)) in Hk.
      apply critical_candidates_In in Hk.
      destruct Hk as [_ [Hk|Hk]]; [now repeat split|lia].
    + apply (sublist_In _ _ _ (sublist_firstn 2 _)) in Hk.
      apply notable_candidates_In in Hk. tauto.
Qed.

Lemma tiers_overlap_only_on_low_must_read_witness :
  let p := [row 50 false; row 20 true] in
  must_read (item_of 20 true) = true
  /\ 0 < relevance_score (item_of 20 true)
  /\ score_lt (relevance_score (item_of 20 true)) (mid_threshold p) = true.
Proof.
  intros p.
  refine (proj2 (proj2
    (tiers_overlap_only_on_low_must_read p (item_of 20 true) _)) _ _).
  - vm_compute. repeat constructor; simpl; intuition discriminate.
  - left. reflexivity.
  - left. reflexivity.
Defined.

(** X4 (score bands). For every pool whose scores are at most 100, an
    item of [worth_a_look] is not must-read and scores from 30 to 69, an
    item of [quick_hits] scores from 1 to 39, and an item of [must_know]
    is must-read or scores at least 30. *)
Theorem tier_score_bands (p : list summary_row) (i : digest_item) :
  Forall (fun j => relevance_score j <= 100) (collect_items p) ->
  (In i (must_know (build_digest p)) ->
   must_read i = true \/ 30 <= relevance_score i)
  /\ (In i (worth_a_look (build_digest p)) ->
      must_read i = false /\ 30 <= relevance_score i < 70)
  /\ (In i (quick_hits (build_digest p)) -> 0 < relevance_score i < 40).
Proof.
  intros Hall.
  assert (Hmax : max_score p <= 100).
  { destruct (collect_items p) as [|j l] eqn:E.
    - unfold max_score, sorted_items. rewrite E. simpl. lia.
    - destruct (max_score_attained p) as (k & Hk & <-);
        [rewrite E; discriminate|].
      rewrite Forall_forall in Hall. apply Hall. now rewrite <- E. }
  split; [|split].
  - intros Hk. apply must_know_origin in Hk. destruct Hk as [Hk|[_ Hk]].
    + apply (sublist_In _ _ _ (sublist_firstn 3 _)) in Hk.
      apply critical_candidates_In in Hk. destruct Hk as [_ [Hk|Hk]];
        [now left|right; lia].
    + apply (sublist_In _ _ _ (sublist_firstn 2 _)) in Hk.
      apply notable_candidates_In in Hk. right. lia.
  - intros Hl. apply worth_a_look_origin, notable_candidates_In in Hl.
    destruct Hl as (_ & Hm & Hmid & Hhigh). split; [exact Hm|lia].
  - intros Hq. apply quick_hits_origin, minor_candidates_In in Hq. lia.
Qed.

Lemma tier_score_bands_witness :
  let p := [row 100 false; row 69 false; row 39 false] in
  must_read (item_of 69 false) = false
  /\ 30 <= relevance_score (item_of 69 false) < 70.
Proof.
  intros p.
  refine (proj1 (proj2 (tier_score_bands p (item_of 69 false) _)) _).
  - repeat constructor; simpl; lia.
  - left. reflexivity.
Defined.

(** X5 (when the fallback fires). The condition of line 101, an empty
    [must_know] and a non-empty [worth_a_look] after truncation, holds
    exactly when no collected item is must-read, every score is below 60
    and some score is at least 30. *)
Theorem fallback_fires_iff (p : list summary_row) :
  (must_know (truncated_tiers p) = []
   /\ worth_a_look (truncated_tiers p) <> [])
  <-> (Forall (fun i => must_read i = false /\ relevance_score i < 60)
              (collect_items p)
       /\ Exists (fun i => 30 <= relevance_score i) (collect_items p)).
Proof.
  tiers. split.
  - intros [Hc Hn]. apply firstn_nil_inv in Hc.
    destruct (notable_candidates p) as [|j l] eqn:E;
      [simpl in Hn; congruence|].
    assert (Hj : In j (notable_candidates p)) by (rewrite E; now left).
    apply notable_candidates_In in Hj. destruct Hj as (Hj & _ & Hmid & _).
    assert (Hnone : forall i, In i (collect_items p) ->
              must_read i = false
              /\ ~ (7 * max_score p <= 10 * relevance_score i
                    /\ 60 <= relevance_score i)).
    { intros i Hi. destruct (must_read i) eqn:Hm.
      - assert (H : In i (critical_candidates p))
          by (apply critical_candidates_In; auto).
        rewrite Hc in H. contradiction.
      - split; [reflexivity|]. intros H.
        assert (H' : In i (critical_candidates p))
          by (apply critical_candidates_In; auto).
        rewrite Hc in H'. contradiction. }
    assert (Hmax : max_score p < 60).
    { destruct (max_score_attained p) as (k & Hk & Hkm);
        [intros H0; rewrite H0 in Hj; contradiction|].
      destruct (Hnone k Hk) as [_ Hk']. lia. }
    split.
    + apply Forall_forall. intros i Hi. split; [now apply Hnone|].
      pose proof (max_score_upper p i Hi). lia.
    + apply Exists_exists. exists j. split; [exact Hj|lia].
  - intros [Hall Hex]. rewrite Forall_forall in Hall.
    apply Exists_exists in Hex. destruct Hex as (j & Hj & Hj30).
    assert (Hmax : max_score p < 60).
    { destruct (max_score_attained p) as (k & Hk & <-);
        [intros H0; rewrite H0 in Hj; contradiction|].
      now apply Hall. }
    split.
    + destruct (critical_candidates p) as [|i l] eqn:E; [reflexivity|].
      assert (Hi : In i (critical_candidates p)) by (rewrite E; now left).
      apply critical_candidates_In in Hi. destruct Hi as [Hi Hk].
      destruct (Hall i Hi) as [Hm Hs]. destruct Hk; [congruence|lia].
    + assert (Hn : In j (notable_candidates p)).
      { apply notable_candidates_In. destruct (Hall j Hj) as [Hm Hs].
        repeat split; try assumption; lia. }
      destruct (notable_candidates p); [contradiction|discriminate].
Qed.

Lemma collect_items_perm (p q : list summary_row) :
  Permutation p q -> Permutation (collect_items p) (collect_items q).
Proof.
  induction 1 as [|s p q _ IH|s r p|p q r _ IH1 _ IH2]; simpl.
  - constructor.
  - destruct (item_record (row_item s)); [now constructor|exact IH].
  - destruct (item_record (row_item s)), (item_record (row_item r));
      try reflexivity. apply perm_swap.
  - now transitivity (collect_items q).
Qed.

Lemma filter_perm {A : Type} (keep : A -> bool) (xs ys : list A) :
  Permutation xs ys -> Permutation (filter keep xs) (filter keep ys).
Proof.
  induction 1 as [|x l l' _ IH|x y l|l l' l'' _ IH1 _ IH2]; simpl.
  - constructor.
  - destruct (keep x); [now constructor|exact IH].
  - destruct (keep x), (keep y); try reflexivity. apply perm_swap.
  - now transitivity (filter keep l').
Qed.

(** With pairwise distinct keys at most one element has a given key. *)
Lemma filter_key_short {A : Type} (key : A -> Z) (v : Z) (l : list A) :
  NoDup (map key l) ->
  (length (filter (fun a => (key a =? v)%Z) l) <= 1)%nat.
Proof.
  induction l as [|x l IH]; simpl; [lia|].
  intros Hnd. inversion Hnd as [|? ? Hx Hl]; subst.
  specialize (IH Hl).
  destruct (Z.eqb_spec (key x) v) as [<-|Hne]; [|lia].
  simpl. destruct (filter (fun a => key a =? key x) l) as [|y t] eqn:E;
    [simpl; lia|].
  exfalso. apply Hx.
  assert (Hy : In y (filter (fun a => key a =? key x) l))
    by (rewrite E; now left).
  apply filter_In in Hy. destruct Hy as [Hy Hk].
  apply Z.eqb_eq in Hk. rewrite <- Hk. now apply in_map.
Qed.

Lemma sort_desc_perm_distinct {A : Type} (key : A -> Z) (l l' : list A) :
  Permutation l l' -> NoDup (map key l) ->
  sort_desc key l = sort_desc key l'.
Proof.
  intros Hp Hnd. apply sort_desc_unique; [apply sort_desc_sorted|].
  intros v. rewrite sort_desc_stable.
  pose proof (filter_key_short key v l Hnd) as Hlen.
  pose proof (filter_perm (fun a => key a =? v) l l' Hp) as Hf.
  destruct (filter (fun a => key a =? v) l) as [|x [|y t]].
  - apply Permutation_nil in Hf. now rewrite Hf.
  - apply Permutation_length_1_inv in Hf. now rewrite Hf.
  - simpl in Hlen. lia.
Qed.

(** X6 (order of the rows). When the scores of the collected items are
    pairwise distinct, [build_digest] returns the same digest for every
    reordering of the rows. *)
Theorem digest_independent_of_row_order (p q : list summary_row) :
  Permutation p q ->
  NoDup (map relevance_score (collect_items p)) ->
  build_digest p = build_digest q.
Proof.
  intros Hp Hnd.
  assert (Hs : sorted_items p = sorted_items q).
  { unfold sorted_items. apply sort_desc_perm_distinct; [|exact Hnd].
    now apply collect_items_perm. }
  unfold build_digest, truncated_tiers, critical_candidates,
    notable_candidates, minor_candidates, high_threshold, mid_threshold,
    max_score.
  now rewrite Hs.
Qed.

Lemma digest_independent_of_row_order_witness :
  build_digest [row 40 false; row 95 false; row 10 true]
  = build_digest [row 10 true; row 40 false; row 95 false].
Proof.
  apply digest_independent_of_row_order.
  - apply (Permutation_app_comm [row 40 false; row 95 false]
                                 [row 10 true]).
  - vm_compute. repeat constructor; simpl; intuition discriminate.
Defined.

(** ** Facts about the date filter *)

Lemma dict_get_lookup (d : dict) (k default : string) :
  dict_get d k default = default_to default (dict_lookup d k).
Proof.
  induction d as [|[k' v] d IH]; simpl; [reflexivity|].
  now destruct (String.eqb k k').
Qed.

Lemma recent_row_spec (c : string) (s : summary_row) (keep : bool) :
  recent_row c s = Some keep ->
  keep = match published_at s with
         | Some pub_date => negb (String.ltb pub_date c)
         | None => true
         end.
Proof.
  unfold recent_row, published_at.
  destruct (row_item s) as [|d|[|d l]]; try congruence.
  destruct d as [|kv d]; [simpl; congruence|]. cbn [dict_truthy].
  destruct (dict_lookup (kv :: d) "published_at") as [pd|]; [|congruence].
  destruct pd; simpl; congruence.
Qed.

(** X7 (the date filter of [get_recent_summaries]). When the loop of
    lines 57-66 returns, it returns the rows in their order, and a row is
    returned exactly when it has no non-empty publication date before
    the cutoff, the dates being compared as strings; rows without an
    item are all returned. *)
Theorem filter_recent_keeps_fresh_rows
  (c : string) (rows filtered : list summary_row) :
  filter_recent c rows = Some filtered ->
  sublist filtered rows
  /\ (forall s, In s filtered <->
        In s rows
        /\ forall pub_date, published_at s = Some pub_date ->
                            String.ltb pub_date c = false).
Proof.
  revert filtered. induction rows as [|s rows IH]; intros filtered H.
  - injection H as <-. split; [constructor|]. intros s. simpl. tauto.
  - simpl in H.
    destruct (recent_row c s) as [keep|] eqn:Hs; [|discriminate].
    destruct (filter_recent c rows) as [l|]; [|discriminate].
    injection H as <-. destruct (IH l eq_refl) as [Hsub Hin].
    apply recent_row_spec in Hs.
    split.
    + destruct keep; now constructor.
    + intros r. destruct keep; simpl; rewrite ?Hin.
      * split.
        -- intros [<-|[Hr Hf]]; [|tauto]. split; [now left|].
           intros pd Hpd. rewrite Hpd in Hs.
           now destruct (String.ltb pd c).
        -- intros [[<-|Hr] Hf]; tauto.
      * split.
        -- intros [Hr Hf]. tauto.
        -- intros [[<-|Hr] Hf]; [|tauto].
           destruct (published_at s) as [pd|]; [|discriminate].
           rewrite (Hf pd eq_refl) in Hs. discriminate.
Qed.

Lemma filter_recent_keeps_fresh_rows_witness :
  let fresh := dated_row "2024-05-03T08:00:00+00:00" 80 in
  let stale := dated_row "2024-04-01T08:00:00+00:00" 90 in
  let c := "2024-04-27T06:00:00.123456+00:00"%string in
  let rows := [orphan_row 10 false; stale; fresh] in
  filter_recent c rows = Some [orphan_row 10 false; fresh]
  /\ sublist [orphan_row 10 false; fresh] rows.
Proof.
  intros fresh stale c rows. split; [reflexivity|].
  apply (filter_recent_keeps_fresh_rows c rows [orphan_row 10 false; fresh]).
  reflexivity.
Defined.

(** X8 (when the date filter raises). The loop of lines 57-66 raises
    exactly when the item of some row is a non-empty list, on which
    [item.get] fails; so the list case of [build_digest] only ever meets
    empty lists after [get_recent_summaries]. *)
Theorem filter_recent_raises_iff (c : string) (rows : list summary_row) :
  filter_recent c rows = None
  <-> Exists (fun s => exists d l, row_item s = ItemList (d :: l)) rows.
Proof.
  induction rows as [|s rows IH]; simpl.
  - split; [discriminate|]. intros H. inversion H.
  - destruct (recent_row c s) as [keep|] eqn:Hs.
    + destruct (filter_recent c rows) as [l|].
      * split; [discriminate|]. intros H. inversion H as [? ? H1|? ? H1]; subst.
        -- destruct H1 as (d & l' & H1). unfold recent_row in Hs.
           rewrite H1 in Hs. discriminate.
        -- apply IH in H1. discriminate.
      * split; [|reflexivity]. intros _. apply Exists_cons_tl. now apply IH.
    + split; [|reflexivity]. intros _. apply Exists_cons_hd.
      unfold recent_row in Hs.
      destruct (row_item s) as [|d|[|d l]]; try discriminate.
      * destruct (dict_truthy d); [|discriminate].
        destruct (dict_lookup d "published_at"); discriminate.
      * now exists d, l.
Qed.

Lemma filter_recent_sublist (c : string) (rows filtered : list summary_row) :
  filter_recent c rows = Some filtered -> sublist filtered rows.
Proof.
  revert filtered. induction rows as [|s rows IH]; intros filtered H.
  - injection H as <-. constructor.
  - simpl in H.
    destruct (recent_row c s) as [keep|]; [|discriminate].
    destruct (filter_recent c rows) as [l|]; [|discriminate].
    injection H as <-. specialize (IH l eq_refl).
    destruct keep; now constructor.
Qed.

(** Rows in query order give items in descending order. *)
Lemma collect_items_sorted (p : list summary_row) :
  StronglySorted ge_row p -> StronglySorted ge_score (collect_items p).
Proof.
  induction 1 as [|s p Hp IH Hs]; simpl; [constructor|].
  destruct (item_record (row_item s)) as [d|]; [|exact IH].
  constructor; [exact IH|].
  apply Forall_forall. intros i Hi.
  assert (Hrow : exists r, In r p /\ relevance_score i = row_score r).
  { clear - Hi. induction p as [|r p IHp]; simpl in Hi; [contradiction|].
    destruct (item_record (row_item r)) as [d'|].
    - destruct Hi as [<-|Hi].
      + exists r. split; [now left|reflexivity].
      + destruct (IHp Hi) as (r' & Hr' & E). exists r'.
        split; [now right|exact E].
    - destruct (IHp Hi) as (r' & Hr' & E). exists r'.
      split; [now right|exact E]. }
  destruct Hrow as (r & Hr & E).
  rewrite Forall_forall in Hs. specialize (Hs r Hr).
  unfold ge_score, ge_row in *. rewrite E. exact Hs.
Qed.

(** X9 (rows in query order). When the rows come in descending order
    of score, as the query orders them, the items that [build_digest]
    collects from the rows kept by the date filter are already sorted:
    its sort leaves them in place. *)
Theorem presorted_rows_stay_in_place
  (c : string) (rows filtered : list summary_row) :
  StronglySorted ge_row rows ->
  filter_recent c rows = Some filtered ->
  sorted_items filtered = collect_items filtered.
Proof.
  intros Hs Hf.
  apply filter_recent_sublist in Hf.
  apply sort_desc_sorted_id.
  apply collect_items_sorted.
  eapply sublist_sorted; [exact Hf|exact Hs].
Qed.

Lemma presorted_rows_stay_in_place_witness :
  let rows := [row 90 false; orphan_row 70 true; row 70 false; row 20 true] in
  sorted_items rows = collect_items rows.
Proof.
  intros rows.
  apply (presorted_rows_stay_in_place "2024-04-27" rows rows).
  - repeat constructor; unfold ge_row, row_score; simpl; lia.
  - reflexivity.
Defined.

(** ** Facts about [split], [strip] and the recipients *)

Lemma split_on_cons (sep c : ascii) (s : string) :
  split_on sep (String c s)
  = if Ascii.eqb c sep then EmptyString :: split_on sep s
    else match split_on sep s with
         | w :: ws => String c w :: ws
         | [] => [String c EmptyString]
         end.
Proof. reflexivity. Qed.

Lemma split_on_not_nil (sep : ascii) (s : string) : split_on sep s <> [].
Proof.
  destruct s as [|c s]; [discriminate|]. rewrite split_on_cons.
  destruct (Ascii.eqb c sep); [discriminate|].
  destruct (split_on sep s); discriminate.
Qed.

(** The pieces are made of characters of the string, the separator
    excepted. *)
Lemma split_on_chars (sep : ascii) (s w : string) (c : ascii) :
  In w (split_on sep s) -> In c (chars w) -> In c (chars s) /\ c <> sep.
Proof.
  revert w. induction s as [|a s IH]; intros w Hw Hc.
  - destruct Hw as [<-|[]]. contradiction.
  - rewrite split_on_cons in Hw.
    destruct (Ascii.eqb_spec a sep) as [->|Hne].
    + destruct Hw as [<-|Hw]; [contradiction|].
      destruct (IH w Hw Hc) as [H1 H2]. split; [now right|exact H2].
    + destruct (split_on sep s) as [|w0 ws] eqn:E.
      * destruct Hw as [<-|[]]. destruct Hc as [<-|[]].
        split; [now left|exact Hne].
      * destruct Hw as [<-|Hw].
        -- destruct Hc as [<-|Hc]; [split; [now left|exact Hne]|].
           destruct (IH w0 (or_introl eq_refl) Hc) as [H1 H2].
           split; [now right|exact H2].
        -- destruct (IH w (or_intror Hw) Hc) as [H1 H2].
           split; [now right|exact H2].
Qed.

(** A string without the separator is its own only piece. *)
Lemma split_on_one (sep : ascii) (s : string) :
  ~ In sep (chars s) -> split_on sep s = [s].
Proof.
  induction s as [|c s IH]; intros Hs; [reflexivity|].
  rewrite split_on_cons.
  destruct (Ascii.eqb_spec c sep) as [->|Hne]; [elim Hs; now left|].
  rewrite IH; [reflexivity|]. intros H. apply Hs. now right.
Qed.

Lemma split_on_app (sep : ascii) (s t : string) :
  ~ In sep (chars s) ->
  split_on sep (s ++ String sep t) = s :: split_on sep t.
Proof.
  induction s as [|c s IH]; intros Hs.
  - simpl. now rewrite Ascii.eqb_refl.
  - change ((String c s ++ String sep t)%string)
      with (String c (s ++ String sep t)).
    rewrite split_on_cons.
    destruct (Ascii.eqb_spec c sep) as [->|Hne]; [elim Hs; now left|].
    rewrite IH; [reflexivity|]. intros H. apply Hs. now right.
Qed.

Lemma split_on_concat (l : list string) :
  l <> [] -> Forall (fun r => ~ In comma (chars r)) l ->
  split_on comma (String.concat "," l) = l.
Proof.
  induction l as [|r l IH]; intros Hne Hl; [congruence|].
  inversion Hl as [|? ? Hr Hl']; subst.
  destruct l as [|r' l].
  - simpl. now apply split_on_one.
  - change (String.concat "," (r :: r' :: l))
      with ((r ++ String comma (String.concat "," (r' :: l)))%string).
    rewrite split_on_app by exact Hr.
    rewrite IH; [reflexivity|discriminate|exact Hl'].
Qed.

Lemma lstrip_suffix (s : string) (c : ascii) :
  In c (chars (lstrip s)) -> In c (chars s).
Proof.
  induction s as [|a s IH]; simpl; [tauto|].
  destruct (is_space a); [intros H; right; now apply IH|tauto].
Qed.

Lemma rstrip_prefix (s : string) (c : ascii) :
  In c (chars (rstrip s)) -> In c (chars s).
Proof.
  induction s as [|a s IH]; simpl; [tauto|].
  destruct (rstrip s) as [|b r].
  - destruct (is_space a); simpl; tauto.
  - simpl. intros [H|H]; [now left|right; apply IH; exact H].
Qed.

Lemma strip_chars (s : string) (c : ascii) :
  In c (chars (strip s)) -> In c (chars s).
Proof. intros H. now apply lstrip_suffix, rstrip_prefix. Qed.

Lemma lstrip_head (s r : string) (c : ascii) :
  lstrip s = String c r -> is_space c = false.
Proof.
  induction s as [|a s IH]; simpl; [discriminate|].
  destruct (is_space a) eqn:E; [exact IH|].
  intros H. injection H as <- _. exact E.
Qed.

Lemma lstrip_fixed (s : string) (c : ascii) :
  is_space c = false -> lstrip (String c s) = String c s.
Proof. intros H. simpl. now rewrite H. Qed.

Lemma rstrip_head (s : string) (c : ascii) :
  is_space c = false -> exists r, rstrip (String c s) = String c r.
Proof.
  intros H. simpl. destruct (rstrip s) as [|b r].
  - rewrite H. now exists EmptyString.
  - now exists (String b r).
Qed.

Lemma rstrip_idem (s : string) : rstrip (rstrip s) = rstrip s.
Proof.
  induction s as [|a s IH]; [reflexivity|]. simpl.
  destruct (rstrip s) as [|b r] eqn:E.
  - destruct (is_space a) eqn:Ea; [reflexivity|]. simpl. now rewrite Ea.
  - change (rstrip (String a (String b r)))
      with (match rstrip (String b r) with
            | EmptyString =>
                if is_space a then EmptyString else String a EmptyString
            | String _ _ as r' => String a r'
            end).
    now rewrite IH.
Qed.

Lemma rstrip_last (s pre : string) (c : ascii) :
  rstrip s = (pre ++ String c EmptyString)%string -> is_space c = false.
Proof.
  revert pre. induction s as [|a s IH]; intros pre; simpl.
  - destruct pre; discriminate.
  - destruct (rstrip s) as [|b r] eqn:E.
    + destruct (is_space a) eqn:Ea; [destruct pre; discriminate|].
      destruct pre as [|p pre]; simpl; intros H.
      * injection H as <-. exact Ea.
      * injection H as _ H. destruct pre; discriminate.
    + destruct pre as [|p pre]; simpl; intros H; [discriminate|].
      injection H as _ H. now apply (IH pre).
Qed.

Lemma strip_idem (s : string) : strip (strip s) = strip s.
Proof.
  unfold strip. destruct (lstrip s) as [|c r] eqn:E; [reflexivity|].
  pose proof (lstrip_head _ _ _ E) as Hc.
  destruct (rstrip_head r c Hc) as [r' Hr]. rewrite Hr.
  rewrite (lstrip_fixed _ _ Hc), <- Hr. apply rstrip_idem.
Qed.

Lemma strip_head (s r : string) (c : ascii) :
  strip s = String c r -> is_space c = false.
Proof.
  unfold strip. destruct (lstrip s) as [|a t] eqn:E; [discriminate|].
  pose proof (lstrip_head _ _ _ E) as Ha.
  destruct (rstrip_head t a Ha) as [r' Hr]. rewrite Hr.
  intros H. injection H as <- _. exact Ha.
Qed.

Lemma lstrip_blank (s : string) :
  Forall (fun c => is_space c = true) (chars s) -> lstrip s = EmptyString.
Proof.
  induction s as [|a s IH]; simpl; [reflexivity|].
  intros H. inversion H as [|? ? Ha Hs]; subst. rewrite Ha. now apply IH.
Qed.

Lemma str_truthy_nonempty (s : string) :
  str_truthy s = true <-> s <> EmptyString.
Proof. destruct s; simpl; split; congruence. Qed.

Lemma parse_recipients_In (value r : string) :
  In r (parse_recipients value) ->
  exists e, In e (split_on comma value) /\ r = strip e /\ r <> EmptyString.
Proof.
  unfold parse_recipients. intros H.
  apply in_map_iff in H. destruct H as (e & <- & He).
  apply filter_In in He. destruct He as [He Ht].
  exists e. repeat split; [exact He|]. now apply str_truthy_nonempty.
Qed.

Lemma parse_recipients_well_formed (value r : string) :
  In r (parse_recipients value) ->
  r <> EmptyString
  /\ ~ In comma (chars r)
  /\ strip r = r
  /\ (forall c rest, r = String c rest -> is_space c = false)
  /\ (forall pre c, r = (pre ++ String c EmptyString)%string ->
                    is_space c = false).
Proof.
  intros H. apply parse_recipients_In in H.
  destruct H as (e & He & -> & Hne).
  split; [exact Hne|]. split; [|split; [|split]].
  - intros Hc. apply strip_chars in Hc.
    now destruct (split_on_chars comma value e comma He Hc).
  - apply strip_idem.
  - intros c rest H. now apply (strip_head e rest).
  - intros pre c H. now apply (rstrip_last (lstrip e) pre).
Qed.

(** X10 (recipients). Every recipient returned by
    [get_digest_recipients], from the settings row or from the
    environment variable, is non-empty, contains no comma and neither
    starts nor ends with a whitespace character. *)
Theorem recipients_well_formed
  (db : settings_result) (env r : string) :
  In r (get_digest_recipients db env) ->
  r <> EmptyString
  /\ ~ In comma (chars r)
  /\ (forall c rest, r = String c rest -> is_space c = false)
  /\ (forall pre c, r = (pre ++ String c EmptyString)%string ->
                    is_space c = false).
Proof.
  intros H.
  assert (Hv : exists value, In r (parse_recipients value)).
  { unfold get_digest_recipients in H.
    destruct db as [|[value|]]; [now exists env| |now exists env].
    destruct (str_truthy value); [now exists value|now exists env]. }
  destruct Hv as [value Hv].
  destruct (parse_recipients_well_formed value r Hv) as (H1 & H2 & _ & H3 & H4).
  auto.
Qed.

Lemma recipients_well_formed_witness :
  let db := SettingsRow (Some " ops@acr.example ,, lead@acr.example"%string) in
  "ops@acr.example"%string <> EmptyString
  /\ ~ In comma (chars "ops@acr.example").
Proof.
  intros db.
  destruct (recipients_well_formed db "x@y"%string "ops@acr.example"%string)
    as (H1 & H2 & _).
  - left. reflexivity.
  - split; assumption.
Defined.

(** X11 (recipients, round trip). Joining the parsed recipients with
    commas and parsing the result gives the same list. *)
Theorem recipients_round_trip (value : string) :
  parse_recipients (String.concat "," (parse_recipients value))
  = parse_recipients value.
Proof.
  pose proof (parse_recipients_well_formed value) as Hwf.
  generalize dependent (parse_recipients value). intros l Hwf.
  destruct l as [|r l]; [reflexivity|].
  unfold parse_recipients. rewrite split_on_concat.
  - assert (Hall : Forall (fun e => str_truthy (strip e) = true
                                    /\ strip e = e) (r :: l)).
    { apply Forall_forall. intros e He.
      destruct (Hwf e He) as (H1 & _ & H2 & _).
      split; [|exact H2]. rewrite H2. now apply str_truthy_nonempty. }
    clear Hwf. induction Hall as [|e l' [He1 He2] _ IH]; [reflexivity|].
    simpl. rewrite He1. simpl. now rewrite He2, IH.
  - discriminate.
  - apply Forall_forall. intros e He. now destruct (Hwf e He) as (_ & H & _).
Qed.

(** X12 (blank settings value). A non-empty settings value made only of
    commas and whitespace gives the empty list of recipients: the
    environment variable is not consulted. *)
Theorem blank_settings_value_yields_no_recipients (value env : string) :
  value <> EmptyString ->
  Forall (fun c => c = comma \/ is_space c = true) (chars value) ->
  get_digest_recipients (SettingsRow (Some value)) env = [].
Proof.
  intros Hne Hall. unfold get_digest_recipients.
  apply str_truthy_nonempty in Hne. rewrite Hne.
  unfold parse_recipients.
  assert (Hnone : forall e, In e (split_on comma value) ->
                            str_truthy (strip e) = false).
  { intros e He. unfold strip. rewrite lstrip_blank; [reflexivity|].
    apply Forall_forall. intros c Hc.
    destruct (split_on_chars comma value e c He Hc) as [Hin Hsep].
    rewrite Forall_forall in Hall. destruct (Hall c Hin); tauto. }
  unfold comma in Hnone.
  induction (split_on "," value) as [|e l IH]; [reflexivity|].
  simpl. rewrite (Hnone e (or_introl eq_refl)).
  apply IH. intros e' He'. apply Hnone. now right.
Qed.

Lemma blank_settings_value_yields_no_recipients_witness :
  get_digest_recipients (SettingsRow (Some " , ,"%string))
                        "ops@acr.example"%string = [].
Proof.
  apply blank_settings_value_yields_no_recipients.
  - discriminate.
  - repeat constructor; (now left) || (right; reflexivity).
Defined.

(** ** Facts about the scorer's result *)

Lemma collect_items_in_range (p : list summary_row) :
  Forall score_in_range p ->
  forall i, In i (collect_items p) -> 0 <= relevance_score i <= 100.
Proof.
  induction 1 as [|s p Hs _ IH]; simpl; [contradiction|].
  intros i Hi. destruct (item_record (row_item s)); [|now apply IH].
  destruct Hi as [<-|Hi]; [exact Hs|now apply IH].
Qed.


Section SummarizeItemFacts.
Variable int_of_str : string -> option Z.
Variable str_of_value : json -> string.

Let result_of := summarize_result int_of_str str_of_value.

Lemma checked_category_valid (v : json) :
  In (checked_category v) valid_categories.
Proof.
  destruct v; try (now left). unfold checked_category.
  destruct (existsb (String.eqb s) valid_categories) eqn:E; [|now left].
  apply existsb_exists in E. destruct E as (c & Hc & E).
  apply String.eqb_eq in E. now subst.
Qed.

Lemma substring_length_le (n m : nat) (s : string) :
  (String.length (substring n m s) <= m)%nat.
Proof.
  revert n m. induction s as [|c s IH]; intros [|n] [|m]; simpl;
    try lia.
  - specialize (IH 0%nat m). lia.
  - apply IH.
  - apply IH.
Qed.

Lemma summary_score_in_range (title : string) (parsed : option json_object) :
  0 <= sum_relevance_score (result_of title parsed) <= 100.
Proof.
  unfold result_of, summarize_result.
  destruct parsed as [result|]; [|simpl; lia].
  destruct (first_three _) as [topics|]; [|simpl; lia].
  destruct (py_int _ _) as [score|]; [|simpl; lia].
  cbn [sum_relevance_score]. lia.
Qed.

(** X15 (the scorer's result is normalised). Whatever the model
    answers, and also when its answer does not parse, [summarize_item]
    returns a score in 0..100, one of the seven valid categories, and at
    most three topics. *)
Theorem summary_is_normalised (title : string) (parsed : option json_object) :
  0 <= sum_relevance_score (result_of title parsed) <= 100
  /\ In (sum_category (result_of title parsed)) valid_categories
  /\ (topics_length (sum_topics (result_of title parsed)) <= 3)%nat.
Proof.
  assert (Herr : 0 <= sum_relevance_score (parse_error_summary title) <= 100
                 /\ In (sum_category (parse_error_summary title))
                       valid_categories
                 /\ (topics_length (sum_topics (parse_error_summary title))
                     <= 3)%nat).
  { simpl. split; [lia|]. split; [now left|lia]. }
  unfold result_of, summarize_result.
  destruct parsed as [result|]; [|exact Herr].
  destruct (first_three _) as [topics|] eqn:Et; [|exact Herr].
  destruct (py_int _ _) as [score|]; [|exact Herr].
  cbn [sum_relevance_score sum_category sum_topics].
  split; [lia|]. split; [apply checked_category_valid|].
  destruct (json_get result "topics" (JArr [])); try discriminate;
    injection Et as <-; cbn [topics_length].
  - exact (substring_length_le 0 3 s).
  - exact (firstn_le_length 3 l).
Qed.

(** X16 (categories of the prompt). Of the six categories the prompt
    asks the model to choose from, five are not among the valid
    categories: an answer with one of them is stored with category
    [sar]. *)
Theorem prompt_categories_collapse_to_sar
  (title c : string) (result : json_object) :
  In c prompt_categories -> c <> "competitor"%string ->
  json_get result "category" (JStr "sar") = JStr c ->
  sum_category (result_of title (Some result)) = "sar"%string.
Proof.
  intros Hc Hne Hget. unfold result_of, summarize_result.
  destruct (first_three _) as [topics|]; [|reflexivity].
  destruct (py_int _ _) as [score|]; [|reflexivity].
  cbn [sum_category]. rewrite Hget.
  destruct Hc as [<-|[<-|[<-|[<-|[<-|[<-|[]]]]]]];
    try reflexivity; congruence.
Qed.

(** X17 (scored rows and the digest). On rows whose scores were
    returned by [summarize_item], [build_digest] gives the same digest
    as on the rows with their scores clamped into [0,100]; an item
    scoring at least 70 is a critical candidate and an item scoring at
    least 40 is no minor candidate. *)
Theorem scored_rows_need_no_clamping (p : list summary_row) :
  Forall (fun s => exists title parsed,
            row_relevance_score s
            = Some (sum_relevance_score (result_of title parsed))) p ->
  build_digest (map with_clamped_score p) = build_digest p
  /\ (forall i, In i (collect_items p) -> 70 <= relevance_score i ->
                In i (critical_candidates p))
  /\ (forall i, In i (collect_items p) -> 40 <= relevance_score i ->
                ~ In i (minor_candidates p)).
Proof.
  intros Hp.
  assert (Hrange : Forall score_in_range p).
  { eapply Forall_impl; [|exact Hp]. intros s (title & parsed & Hs).
    unfold score_in_range, row_score. rewrite Hs. simpl.
    apply summary_score_in_range. }
  assert (Hmax : max_score p <= 100).
  { destruct (collect_items p) as [|j l] eqn:E.
    - unfold max_score, sorted_items. rewrite E. simpl. lia.
    - destruct (max_score_attained p) as (k & Hk & <-);
        [rewrite E; discriminate|].
      apply (collect_items_in_range p Hrange k Hk). }
  split; [|split].
  - apply build_digest_ext. now apply collect_items_clamped_score.
  - intros i Hi H70. apply critical_candidates_In.
    split; [exact Hi|right; lia].
  - intros i Hi H40 Hq. apply minor_candidates_In in Hq. lia.
Qed.
End SummarizeItemFacts.

Lemma prompt_categories_collapse_to_sar_witness :
  let result := [("summary", JStr "FAA rule"); ("category", JStr "regulatory");
                 ("relevance_score", JInt 85)]%string in
  sum_category (summarize_result (fun _ => None) (fun _ => EmptyString)
                                 "t" (Some result))
  = "sar"%string.
Proof.
  intros result.
  apply (prompt_categories_collapse_to_sar (fun _ => None)
           (fun _ => EmptyString) "t" "regulatory" result).
  - right. right. right. right. left. reflexivity.
  - discriminate.
  - reflexivity.
Defined.

Lemma scored_rows_need_no_clamping_witness :
  let answer := [("relevance_score", JFloat (FloatFinite (1725 # 10)));
                 ("must_read", JBool true)]%string in
  let scored :=
    summarize_result (fun _ => None) (fun _ => EmptyString) "t"
                     (Some answer) in
  let p := [mkRow (ItemObject sample_item) None None None
                  (Some (sum_relevance_score scored))
                  (Some (sum_must_read scored));
            row 40 false] in
  build_digest (map with_clamped_score p) = build_digest p.
Proof.
  intros answer scored p.
  apply (scored_rows_need_no_clamping (fun _ => None) (fun _ => EmptyString)).
  constructor.
  - exists "t"%string, (Some answer). reflexivity.
  - constructor; [|constructor].
    exists "t"%string, (Some [("relevance_score", JInt 40)]%string).
    reflexivity.
Defined.

(** ** Facts about the ingest *)

Lemma get_content_length (entry : feed_entry) :
  (String.length (get_content entry) <= content_limit)%nat.
Proof.
  unfold get_content.
  destruct (entry_content entry) as [[|c l]|];
    try apply substring_length_le;
    destruct (entry_summary entry); try apply substring_length_le;
    destruct (entry_description entry); try apply substring_length_le;
    simpl; lia.
Qed.

Lemma url_known_In (u : string) (st : ingest_state) :
  url_known u st = false -> ~ In u (existing_urls st).
Proof.
  unfold url_known. intros H Hin.
  assert (Ht : existsb (String.eqb u) (existing_urls st) = true).
  { apply existsb_exists. exists u. split; [exact Hin|apply String.eqb_refl]. }
  congruence.
Qed.

Section IngestFacts.
Variable fetch : string -> option (list feed_entry).
Variable insert_ok : ingest_item -> bool.
Variable clock : nat -> Z.
Variable cutoff : Z.
Variable existing : list string.

Let Inv := ingest_invariant cutoff existing.

Lemma process_entries_invariant (src : feed_source)
    (entries : list feed_entry) (st : ingest_state) (n : nat) :
  Inv st -> Inv (fst (process_entries insert_ok clock cutoff src entries st n)).
Proof.
  revert st n. induction entries as [|entry rest IH]; intros st n Hst;
    [exact Hst|].
  cbn [process_entries].
  set (u := default_to EmptyString (entry_link entry)).
  destruct (negb (str_truthy u) || url_known u st) eqn:Hskip;
    [now apply IH|].
  apply orb_false_iff in Hskip. destruct Hskip as [Hu Hknown].
  apply negb_false_iff, str_truthy_nonempty in Hu.
  apply url_known_In in Hknown.
  destruct (Z.ltb_spec (parse_date (clock (clock_reads st)) entry) cutoff)
    as [Hold|Hfresh].
  { apply IH. destruct Hst. now constructor. }
  match goal with |- context [insert_ok ?i] => set (item := i) end.
  destruct (insert_ok item); [|destruct Hst; now constructor].
  apply IH. destruct Hst as [Hurls Hnd Hnew Hrows].
  rewrite Hurls in Hknown.
  constructor; cbn [existing_urls inserted map].
  - now rewrite Hurls.
  - constructor; [|exact Hnd]. cbn [item_url item].
    intros Hin. apply Hknown, in_or_app. now left.
  - constructor; [|exact Hnew]. cbn [item_url item].
    split; [exact Hu|]. intros Hin. apply Hknown, in_or_app. now right.
  - constructor; [|exact Hrows].
    cbn [item_published_at item_title item_content item].
    split; [exact Hfresh|]. split.
    + apply substring_length_le.
    + apply get_content_length.
Qed.

Lemma process_source_invariant (st : ingest_state) (src : feed_source) :
  Inv st -> Inv (process_source fetch insert_ok clock cutoff st src).
Proof.
  intros Hst. unfold process_source.
  destruct (fetch (source_url src)) as [entries|]; [|exact Hst].
  pose proof (process_entries_invariant src (firstn 20 entries) st 0 Hst)
    as H.
  destruct (process_entries _ _ _ _ _ _ _) as [st' [k|]];
    [|exact H].
  destruct H. now constructor.
Qed.

Lemma ingest_invariant_holds (sources : list feed_source) :
  Inv (ingest fetch insert_ok clock cutoff sources existing).
Proof.
  unfold ingest.
  assert (H0 : Inv {| existing_urls := existing; inserted := [];
                      total_new := 0; total_skipped := 0;
                      clock_reads := 0 |}).
  { constructor; simpl; constructor. }
  revert H0. generalize (mkIngest existing [] 0 0 0). 
  induction sources as [|src sources IH]; intros st Hst; [exact Hst|].
  simpl. apply IH. now apply process_source_invariant.
Qed.

(** X18 (no duplicate URL). In a run of the ingest the URLs of the
    inserted rows are pairwise distinct and non-empty, none was stored
    before the run, and at the end [existing_urls] holds the URLs
    inserted and those stored before, whatever the feeds return and
    whichever inserts fail. *)
Theorem ingest_never_duplicates_urls (sources : list feed_source) :
  let st := ingest fetch insert_ok clock cutoff sources existing in
  NoDup (map item_url (inserted st))
  /\ Forall (fun i => item_url i <> EmptyString
                      /\ ~ In (item_url i) existing) (inserted st)
  /\ existing_urls st = map item_url (inserted st) ++ existing.
Proof.
  intros st. destruct (ingest_invariant_holds sources) as [H1 H2 H3 _].
  auto.
Qed.

(** X19 (inserted rows). Every row inserted by the ingest is published
    at or after the cutoff, has a title of at most 500 characters and a
    content of at most 10000 characters. *)
Theorem ingest_rows_fresh_and_bounded (sources : list feed_source) :
  Forall (fun i => cutoff <= item_published_at i
                   /\ (String.length (item_title i) <= 500)%nat
                   /\ (String.length (item_content i) <= content_limit)%nat)
         (inserted (ingest fetch insert_ok clock cutoff sources existing)).
Proof. now destruct (ingest_invariant_holds sources). Qed.

(** The counters of the inner loop. *)
Lemma process_entries_count (src : feed_source)
    (entries : list feed_entry) (st : ingest_state) (n : nat) :
  let r := process_entries insert_ok clock cutoff src entries st n in
  total_new (fst r) = total_new st
  /\ (length (inserted st) <= length (inserted (fst r))
      <= length (inserted st) + length entries)%nat
  /\ (forall k, snd r = Some k ->
        (length (inserted (fst r)) + n = length (inserted st) + k)%nat)
  /\ ((forall i, insert_ok i = true) -> snd r <> None).
Proof.
  revert st n. induction entries as [|entry rest IH]; intros st n.
  - simpl. repeat split; try lia.
    + intros k H. injection H as <-. lia.
    + discriminate.
  - cbn [process_entries].
    set (u := default_to EmptyString (entry_link entry)).
    destruct (negb (str_truthy u) || url_known u st).
    { destruct (IH st n) as (H1 & H2 & H3 & H4). simpl length.
      repeat split; try assumption; lia. }
    destruct (parse_date (clock (clock_reads st)) entry <? cutoff).
    { match goal with |- context [process_entries _ _ _ _ _ ?s _] =>
        destruct (IH s n) as (H1 & H2 & H3 & H4) end.
      cbn [total_new inserted] in *. simpl length.
      repeat split; try assumption; lia. }
    match goal with |- context [insert_ok ?i] => set (item := i) end.
    destruct (insert_ok item) eqn:Hok.
    + match goal with |- context [process_entries _ _ _ _ _ ?s _] =>
        destruct (IH s (S n)) as (H1 & H2 & H3 & H4) end.
      cbn [total_new inserted] in *. simpl length in *.
      repeat split; try assumption; try lia.
      intros k Hk. specialize (H3 k Hk). lia.
    + cbn [fst snd total_new inserted]. simpl length.
      repeat split; try lia; try discriminate.
      intros Hall. rewrite Hall in Hok. discriminate.
Qed.

Lemma process_source_count (st : ingest_state) (src : feed_source) :
  let st' := process_source fetch insert_ok clock cutoff st src in
  (total_new st' - total_new st
   <= length (inserted st') - length (inserted st))%nat
  /\ (total_new st <= total_new st')%nat
  /\ (length (inserted st) <= length (inserted st')
      <= length (inserted st) + 20)%nat
  /\ ((forall i, insert_ok i = true) ->
      (total_new st' + length (inserted st)
       = total_new st + length (inserted st'))%nat).
Proof.
  unfold process_source.
  destruct (fetch (source_url src)) as [entries|];
    [|cbv zeta; repeat split; lia].
  pose proof (process_entries_count src (firstn 20 entries) st 0) as H.
  pose proof (firstn_le_length 20 entries) as Hlen.
  destruct (process_entries _ _ _ _ _ _ _) as [st' [k|]];
    cbv zeta in *; cbn [fst snd total_new inserted] in *;
    destruct H as (H1 & H2 & H3 & H4).
  - specialize (H3 k eq_refl). repeat split; lia.
  - repeat split; try lia. intros Hall. now elim (H4 Hall).
Qed.

(** X20 (the counter of new items). At the end of a run [total_new] is
    at most the number of rows inserted, which is at most 20 for each
    source; when no insert fails the two are equal. *)
Theorem ingest_counts (sources : list feed_source) :
  let st := ingest fetch insert_ok clock cutoff sources existing in
  (total_new st <= length (inserted st) <= 20 * length sources)%nat
  /\ ((forall i, insert_ok i = true) -> total_new st = length (inserted st)).
Proof.
  unfold ingest.
  assert (H : forall st,
    let st' := fold_left (process_source fetch insert_ok clock cutoff)
                         sources st in
    (total_new st' - total_new st
     <= length (inserted st') - length (inserted st))%nat
    /\ (total_new st <= total_new st')%nat
    /\ (length (inserted st) <= length (inserted st')
        <= length (inserted st) + 20 * length sources)%nat
    /\ ((forall i, insert_ok i = true) ->
        (total_new st' + length (inserted st)
         = total_new st + length (inserted st'))%nat)).
  { induction sources as [|src l IH]; intros st.
    - simpl. repeat split; lia.
    - cbn [fold_left]. cbv zeta.
      pose proof (process_source_count st src) as Hs. cbv zeta in Hs.
      specialize (IH (process_source fetch insert_ok clock cutoff st src)).
      cbv zeta in IH.
      destruct Hs as (S1 & S2 & S3 & S4). destruct IH as (I1 & I2 & I3 & I4).
      simpl length. repeat split; try lia.
      intros Hall. specialize (S4 Hall). specialize (I4 Hall). lia. }
  specialize (H (mkIngest existing [] 0 0 0)). cbv zeta in *.
  cbn [total_new inserted length] in H.
  destruct H as (H1 & H2 & H3 & H4).
  split; [lia|]. intros Hall. specialize (H4 Hall). lia.
Qed.

(** The set of known URLs only grows. *)
Lemma process_entries_grows (src : feed_source)
    (entries : list feed_entry) (st : ingest_state) (n : nat) :
  incl (existing_urls st)
       (existing_urls
          (fst (process_entries insert_ok clock cutoff src entries st n))).
Proof.
  revert st n. induction entries as [|entry rest IH]; intros st n;
    [apply incl_refl|].
  cbn [process_entries].
  set (u := default_to EmptyString (entry_link entry)).
  destruct (negb (str_truthy u) || url_known u st); [apply IH|].
  destruct (parse_date (clock (clock_reads st)) entry <? cutoff).
  { match goal with |- context [process_entries _ _ _ _ _ ?s _] =>
      exact (IH s n) end. }
  match goal with |- context [insert_ok ?i] => set (item := i) end.
  destruct (insert_ok item); [|apply incl_refl].
  match goal with |- context [process_entries _ _ _ _ _ ?s ?m] =>
    specialize (IH s m) end.
  intros x Hx. apply IH. now right.
Qed.

Lemma process_source_grows (st : ingest_state) (src : feed_source) :
  incl (existing_urls st)
       (existing_urls (process_source fetch insert_ok clock cutoff st src)).
Proof.
  unfold process_source.
  destruct (fetch (source_url src)) as [entries|]; [|apply incl_refl].
  pose proof (process_entries_grows src (firstn 20 entries) st 0) as H.
  destruct (process_entries _ _ _ _ _ _ _) as [st' [k|]]; exact H.
Qed.

Lemma fold_process_source_grows (sources : list feed_source)
    (st : ingest_state) :
  incl (existing_urls st)
       (existing_urls
          (fold_left (process_source fetch insert_ok clock cutoff)
                     sources st)).
Proof.
  revert st. induction sources as [|src l IH]; intros st; [apply incl_refl|].
  simpl. eapply incl_tran; [apply process_source_grows|apply IH].
Qed.

Lemma process_entries_stores (src : feed_source)
    (entries : list feed_entry) (st : ingest_state) (n : nat)
    (entry : feed_entry) :
  (forall i, insert_ok i = true) ->
  In entry entries -> always_fresh clock cutoff entry ->
  forall u, entry_link entry = Some u -> u <> EmptyString ->
  In u (existing_urls
          (fst (process_entries insert_ok clock cutoff src entries st n))).
Proof.
  intros Hok Hin Hfresh u Hlink Hu.
  revert st n. induction entries as [|e rest IH]; intros st n;
    [contradiction|].
  cbn [process_entries].
  set (v := default_to EmptyString (entry_link e)).
  destruct Hin as [->|Hin].
  - assert (Hv : v = u) by (unfold v; now rewrite Hlink). rewrite Hv.
    apply str_truthy_nonempty in Hu. rewrite Hu. cbn [negb orb].
    destruct (url_known u st) eqn:Hk.
    + apply process_entries_grows. unfold url_known in Hk.
      apply existsb_exists in Hk. destruct Hk as (w & Hw & E).
      apply String.eqb_eq in E. now subst.
    + destruct (Z.ltb_spec (parse_date (clock (clock_reads st)) entry) cutoff)
        as [Hold|_]; [specialize (Hfresh (clock_reads st)); lia|].
      rewrite Hok. apply process_entries_grows. now left.
  - destruct (negb (str_truthy v) || url_known v st); [now apply IH|].
    destruct (parse_date (clock (clock_reads st)) e <? cutoff);
      [now apply IH|].
    rewrite Hok. now apply IH.
Qed.

(** X21 (no fresh entry is lost). When no insert fails, every entry
    among the first 20 of a feed that was fetched, with a non-empty link
    and a date that passes the cutoff, has its URL stored at the end of
    the run: it was stored before or it is the URL of an inserted row. *)
Theorem ingest_stores_every_fresh_entry
    (sources : list feed_source) (src : feed_source)
    (entries : list feed_entry) (entry : feed_entry) (u : string) :
  (forall i, insert_ok i = true) ->
  In src sources -> fetch (source_url src) = Some entries ->
  In entry (firstn 20 entries) -> always_fresh clock cutoff entry ->
  entry_link entry = Some u -> u <> EmptyString ->
  let st := ingest fetch insert_ok clock cutoff sources existing in
  In u existing \/ In u (map item_url (inserted st)).
Proof.
  intros Hok Hsrc Hfetch Hentry Hfresh Hlink Hu st.
  assert (Hin : In u (existing_urls st)).
  { subst st. unfold ingest. generalize (mkIngest existing [] 0 0 0).
    induction sources as [|s l IH]; intros st0; [contradiction|].
    simpl. destruct Hsrc as [->|Hsrc]; [|now apply IH].
    apply fold_process_source_grows. unfold process_source.
    rewrite Hfetch.
    pose proof (process_entries_stores src (firstn 20 entries) st0 0 entry
                  Hok Hentry Hfresh u Hlink Hu) as H.
    destruct (process_entries _ _ _ _ _ _ _) as [st' [k|]]; exact H. }
  destruct (ingest_invariant_holds sources) as [Hurls _ _ _].
  fold st in Hurls. rewrite Hurls in Hin.
  apply in_app_or in Hin. tauto.
Qed.
End IngestFacts.

(** ** A run of the ingest, evaluated *)

Example sample_run_result :
  map item_url (inserted sample_run)
  = ["https://example.org/b"; "https://example.org/a"]%string
  /\ map item_published_at (inserted sample_run) = [1001; 900]
  /\ map item_content (inserted sample_run)
     = ["body of b"; "about a"]%string
  /\ total_new sample_run = 2%nat
  /\ total_skipped sample_run = 1%nat.
Proof. vm_compute. repeat split. Qed.

(** When an insert fails the feed is abandoned and its earlier inserts
    are left out of [total_new]. *)
Example failed_insert_loses_count :
  let st := ingest sample_fetch
                   (fun i => negb (String.eqb (item_url i)
                                              "https://example.org/b"))
                   (fun n => 1000 + Z.of_nat n) 500
                   [mkSource "s2" "feed2"] [] in
  map item_url (inserted st) = ["https://example.org/a"%string]
  /\ total_new st = 0%nat.
Proof. vm_compute. split; reflexivity. Qed.

Lemma ingest_counts_witness :
  total_new sample_run = length (inserted sample_run).
Proof.
  apply (proj2 (ingest_counts sample_fetch (fun _ => true)
                  (fun n => 1000 + Z.of_nat n) 500
                  ["https://example.org/seen"%string] sample_sources)).
  reflexivity.
Defined.

Lemma ingest_stores_every_fresh_entry_witness :
  In "https://example.org/a"%string ["https://example.org/seen"%string]
  \/ In "https://example.org/a"%string
        (map item_url (inserted sample_run)).
Proof.
  apply (ingest_stores_every_fresh_entry sample_fetch (fun _ => true)
           (fun n => 1000 + Z.of_nat n) 500
           ["https://example.org/seen"%string] sample_sources
           (mkSource "s1" "feed1") [entry_a; entry_old; entry_unlinked]
           entry_a "https://example.org/a").
  - reflexivity.
  - left. reflexivity.
  - reflexivity.
  - left. reflexivity.
  - intros n. unfold parse_date, entry_a. simpl. lia.
  - reflexivity.
  - discriminate.
Defined.

(** ** Facts about the text of the podcast *)

(** The sizes of the fixed parts, as counted in the source. *)
Example podcast_frame_length :
  String.length (format_digest_for_podcast "2024-05-03"
                   (mkStored None None None))
  = (246 + 10 + 44 + 33 + 191)%nat.
Proof. vm_compute. reflexivity. Qed.

Example podcast_length :
  String.length
    (format_digest_for_podcast "2024-05-03"
       (store_digest
          (build_digest [row 95 false; row 40 false; row 10 true])))
  = 674%nat.
Proof. vm_compute. reflexivity. Qed.

Lemma string_app_assoc (a b c : string) :
  ((a ++ b) ++ c = a ++ (b ++ c))%string.
Proof. induction a as [|x a IH]; simpl; [reflexivity|now rewrite IH]. Qed.

Lemma string_app_nil_r (a : string) : (a ++ "")%string = a.
Proof. induction a as [|x a IH]; simpl; [reflexivity|now rewrite IH]. Qed.

Lemma occurs_refl (s : string) : occurs s s.
Proof.
  exists EmptyString, EmptyString. simpl. now rewrite string_app_nil_r.
Qed.

Lemma occurs_app_l (s t u : string) : occurs s t -> occurs s (t ++ u).
Proof.
  intros (a & b & ->). exists a, (b ++ u)%string.
  now rewrite !string_app_assoc.
Qed.

Lemma occurs_app_r (s t u : string) : occurs s u -> occurs s (t ++ u).
Proof.
  intros (a & b & ->). exists (t ++ a)%string, b.
  now rewrite !string_app_assoc.
Qed.

Lemma append_each_keeps (f : digest_item -> string)
    (items : list digest_item) (text s : string) :
  occurs s text -> occurs s (append_each f items text).
Proof.
  revert text. induction items as [|i items IH]; intros text H; [exact H|].
  simpl. apply IH. now apply occurs_app_l.
Qed.

Lemma append_each_mentions (f : digest_item -> string)
    (items : list digest_item) (text s : string) (item : digest_item) :
  In item items -> occurs s (f item) -> occurs s (append_each f items text).
Proof.
  revert text. induction items as [|i items IH]; intros text Hin Hs;
    [contradiction|].
  simpl. destruct Hin as [->|Hin].
  - apply append_each_keeps. now apply occurs_app_r.
  - now apply IH.
Qed.

Create HintDb occurs.
#[local] Hint Resolve occurs_refl occurs_app_l occurs_app_r : occurs.

Lemma podcast_blocks_mention (item : digest_item) :
  (occurs (title item) (podcast_must_know item)
   /\ occurs (summary item) (podcast_must_know item))
  /\ (occurs (title item) (podcast_worth_a_look item)
      /\ occurs (summary item) (podcast_worth_a_look item))
  /\ (occurs (title item) (podcast_quick_hit item)
      /\ occurs (summary item) (podcast_quick_hit item)).
Proof.
  unfold podcast_must_know, podcast_worth_a_look, podcast_quick_hit.
  repeat split; auto 10 with occurs.
Qed.

(** X22 (text of the podcast). The text [format_digest_for_podcast]
    returns contains the date of the digest and, for every item of every
    tier, its title and its summary. *)
Theorem podcast_text_mentions_every_item
  (date : string) (content : stored_content) :
  let text := format_digest_for_podcast date content in
  occurs date text
  /\ forall item,
       In item (default_to [] (stored_must_know content)
                ++ default_to [] (stored_worth_a_look content)
                ++ default_to [] (stored_quick_hits content)) ->
       occurs (title item) text /\ occurs (summary item) text.
Proof.
  cbv zeta. unfold format_digest_for_podcast. split.
  - apply occurs_app_l, append_each_keeps, occurs_app_l, append_each_keeps,
      occurs_app_l, append_each_keeps.
    unfold podcast_header. auto with occurs.
  - intros item Hin.
    destruct (podcast_blocks_mention item)
      as ((M1 & M2) & (W1 & W2) & (Q1 & Q2)).
    apply in_app_or in Hin. destruct Hin as [Hin|Hin];
      [|apply in_app_or in Hin; destruct Hin as [Hin|Hin]].
    + split; apply occurs_app_l, append_each_keeps, occurs_app_l,
        append_each_keeps, occurs_app_l;
        eapply append_each_mentions; eauto.
    + split; apply occurs_app_l, append_each_keeps, occurs_app_l;
        eapply append_each_mentions; eauto.
    + split; apply occurs_app_l; eapply append_each_mentions; eauto.
Qed.

Lemma podcast_text_mentions_every_item_witness :
  let d := build_digest [row 95 false; row 40 false; row 10 true] in
  let text := format_digest_for_podcast "2024-05-03" (store_digest d) in
  occurs (title (item_of 40 false)) text
  /\ occurs (summary (item_of 40 false)) text.
Proof.
  intros d text.
  apply (proj2 (podcast_text_mentions_every_item "2024-05-03"
                  (store_digest d)) (item_of 40 false)).
  vm_compute. right. right. left. reflexivity.
Defined.

(** ** Facts about [main] *)

Lemma digest_total_le (p : list summary_row) :
  (digest_total (build_digest p) <= 20)%nat.
Proof.
  unfold digest_total.
  pose proof (f_equal (@length _) (output_first_two_tiers p)) as H.
  rewrite !length_app in H.
  pose proof (firstn_le_length 3 (critical_candidates p)).
  pose proof (firstn_le_length 7 (notable_candidates p)).
  pose proof (firstn_le_length 10 (minor_candidates p)).
  rewrite output_quick_hits. lia.
Qed.

(** X13 (no email without content). If [main] posts an email, its
    content is the digest built from the rows the date filter returned,
    it holds between 1 and 20 items, and some collected item is
    must-read or scores above 0. *)
Theorem email_only_for_reportable_items
  (credentials : bool) (today pub_cutoff : string)
  (rows : list summary_row) (settings : settings_result) (env : string)
  (posted : bool) (date : string) (recipients : list string)
  (content : digest) :
  In (PostEmail date recipients content)
     (fst (digest_main credentials today pub_cutoff rows settings env
                       posted)) ->
  exists summaries,
    filter_recent pub_cutoff rows = Some summaries
    /\ content = build_digest summaries
    /\ (1 <= digest_total content <= 20)%nat
    /\ Exists (fun i => must_read i = true \/ 0 < relevance_score i)
              (collect_items summaries).
Proof.
  unfold digest_main.
  destruct (negb credentials); [contradiction|].
  destruct (filter_recent pub_cutoff rows) as [summaries|]; [|contradiction].
  destruct summaries as [|s l]; [contradiction|].
  set (p := s :: l).
  destruct (Nat.eqb_spec (digest_total (build_digest p)) 0) as [H0|Hpos];
    [contradiction|].
  intros Hin.
  assert (Hc : content = build_digest p).
  { destruct posted; simpl in Hin;
      repeat (destruct Hin as [Hin|Hin]; try discriminate;
              try (now injection Hin)); contradiction. }
  exists p. split; [reflexivity|]. split; [exact Hc|]. subst content.
  split; [pose proof (digest_total_le p); lia|].
  unfold digest_total in Hpos. rewrite <- !length_app in Hpos.
  destruct (must_know (build_digest p) ++ worth_a_look (build_digest p)
            ++ quick_hits (build_digest p)) as [|i t] eqn:E;
    [rewrite <- app_assoc, E in Hpos; simpl in Hpos; lia|].
  apply Exists_exists. exists i.
  apply tier_member_reportable. rewrite E. now left.
Qed.

Lemma email_only_for_reportable_items_witness :
  exists summaries,
    filter_recent "2024-04-27" [row 50 false] = Some summaries
    /\ build_digest [row 50 false] = build_digest summaries
    /\ (1 <= digest_total (build_digest [row 50 false]) <= 20)%nat
    /\ Exists (fun i => must_read i = true \/ 0 < relevance_score i)
              (collect_items summaries).
Proof.
  apply (email_only_for_reportable_items true "2024-05-04" "2024-04-27"
           [row 50 false] SettingsError "ops@acr.example" true
           "2024-05-04" ["ops@acr.example"%string]
           (build_digest [row 50 false])).
  right. right. left. reflexivity.
Defined.

(** X14 (when [main] ends well). [main] of generate_digest.py ends
    without [sys.exit(1)] or an exception exactly when the credentials
    are set, the date filter returns, some collected item is must-read
    or scores above 0, and the mail service answers 200. *)
Theorem digest_main_succeeds_iff
  (credentials : bool) (today pub_cutoff : string)
  (rows : list summary_row) (settings : settings_result) (env : string)
  (posted : bool) :
  snd (digest_main credentials today pub_cutoff rows settings env posted)
  = true
  <-> credentials = true
      /\ posted = true
      /\ exists summaries,
           filter_recent pub_cutoff rows = Some summaries
           /\ Exists (fun i => must_read i = true \/ 0 < relevance_score i)
                     (collect_items summaries).
Proof.
  unfold digest_main.
  destruct credentials; simpl negb; cbv iota;
    [|split; [discriminate|intros (H & _); discriminate]].
  destruct (filter_recent pub_cutoff rows) as [summaries|];
    [|split; [discriminate|intros (_ & _ & p & H & _); discriminate]].
  assert (Htotal : (digest_total (build_digest summaries) =? 0)%nat = false
                   <-> Exists (fun i => must_read i = true
                                        \/ 0 < relevance_score i)
                              (collect_items summaries)).
  { unfold digest_total. rewrite <- !length_app, Nat.eqb_neq.
    rewrite <- app_assoc. split.
    - intros Hne.
      destruct (must_know (build_digest summaries)
                ++ worth_a_look (build_digest summaries)
                ++ quick_hits (build_digest summaries)) as [|i t] eqn:E;
        [now elim Hne|].
      apply Exists_exists. exists i.
      apply tier_member_reportable. rewrite E. now left.
    - intros Hex Hlen. apply Exists_exists in Hex.
      destruct Hex as (i & Hi & Hr).
      apply (reportable_item_fills_digest summaries i Hi Hr).
      now apply length_zero_iff_nil. }
  destruct summaries as [|s l].
  { split; [discriminate|]. intros (_ & _ & p & Hp & Hex).
    injection Hp as <-. inversion Hex. }
  destruct (digest_total (build_digest (s :: l)) =? 0)%nat eqn:Et.
  - split; [discriminate|]. intros (_ & _ & p & Hp & Hex).
    injection Hp as <-. apply Htotal in Hex. discriminate.
  - destruct posted; simpl snd.
    + split; [|reflexivity]. intros _. repeat split.
      exists (s :: l). split; [reflexivity|now apply Htotal].
    + split; [discriminate|]. intros (_ & H & _). discriminate.
Qed.

(** ** Facts about [main] of summarize.py *)

Section SummarizeMainFacts.
Variable int_of_str : string -> option Z.
Variable str_of_value : json -> string.
Variable ask : string -> model_outcome.
Variable insert_ok : summary_insert -> bool.

Let step := summarize_step int_of_str str_of_value ask insert_ok.

(** What the inserted rows have in common. *)
Let row_ok (candidates : list queued_item) (row : summary_insert) : Prop :=
  (exists item, In item candidates /\ ins_item_id row = queued_id item)
  /\ 0 <= sum_relevance_score (ins_summary row) <= 100
  /\ In (sum_category (ins_summary row)) valid_categories.

Lemma summarize_loop_spec (candidates todo : list queued_item)
    (st : summarize_state) :
  incl todo candidates ->
  Forall (row_ok candidates) (stored_summaries st) ->
  length (stored_summaries st) = successful st ->
  let st' := fold_left step todo st in
  Forall (row_ok candidates) (stored_summaries st')
  /\ length (stored_summaries st') = successful st'
  /\ (successful st' + failed st'
      = successful st + failed st + length todo)%nat.
Proof.
  revert st. induction todo as [|item todo IH]; intros st Hincl Hrows Hlen.
  - simpl. repeat split; try assumption. lia.
  - cbn [fold_left]. cbv zeta.
    assert (Hitem : In item candidates) by (apply Hincl; now left).
    assert (Htodo : incl todo candidates)
      by (intros x Hx; apply Hincl; now right).
    assert (Hstep : Forall (row_ok candidates) (stored_summaries (step st item))
                    /\ length (stored_summaries (step st item))
                       = successful (step st item)
                    /\ (successful (step st item) + failed (step st item)
                        = S (successful st + failed st))%nat).
    { unfold step, summarize_step, summarize_item.
      destruct (ask _) as [|parsed]; cbn [stored_summaries successful failed];
        [repeat split; try assumption; lia|].
      destruct (insert_ok _); cbn [stored_summaries successful failed];
        [|repeat split; try assumption; lia].
      split; [|split; [simpl; lia|lia]].
      constructor; [|exact Hrows].
      unfold row_ok. cbn [ins_item_id ins_summary].
      split; [now exists item|]. split.
      - apply summary_score_in_range.
      - unfold summarize_result.
        destruct parsed as [result|]; [|now left].
        destruct (first_three _); [|now left].
        destruct (py_int _ _); [|now left].
        apply checked_category_valid. }
    destruct Hstep as (H1 & H2 & H3).
    destruct (IH (step st item) Htodo H1 H2) as (I1 & I2 & I3).
    repeat split; try assumption. simpl length. lia.
Qed.

(** X23 (counters of the scorer's loop). [main] of summarize.py takes
    at most 50 items; each is counted once, as a success or as a
    failure, and the successes are the rows inserted into
    [summaries]. *)
Theorem summarize_main_counts (items : list queued_item)
    (summarized_ids : list string) :
  let st := summarize_main int_of_str str_of_value ask insert_ok
                           items summarized_ids in
  (successful st + failed st
   = length (items_to_summarize items summarized_ids))%nat
  /\ (length (items_to_summarize items summarized_ids) <= 50)%nat
  /\ length (stored_summaries st) = successful st.
Proof.
  cbv zeta. unfold summarize_main.
  destruct (summarize_loop_spec (items_to_summarize items summarized_ids)
              (items_to_summarize items summarized_ids)
              (mkSummarize [] 0 0)) as (_ & H2 & H3);
    [apply incl_refl|constructor|reflexivity|].
  cbv zeta in *. cbn [successful failed] in H3.
  split; [exact H3|]. split; [apply firstn_le_length|exact H2].
Qed.

(** X24 (rows of the scorer's loop). Every row [main] of summarize.py
    inserts belongs to an item of the query that had no summary yet, and
    carries a score in 0..100 and a valid category, whatever the model
    answers. *)
Theorem summarize_main_rows (items : list queued_item)
    (summarized_ids : list string) :
  Forall (fun row =>
            ~ In (ins_item_id row) summarized_ids
            /\ (exists item, In item items /\ ins_item_id row = queued_id item)
            /\ 0 <= sum_relevance_score (ins_summary row) <= 100
            /\ In (sum_category (ins_summary row)) valid_categories)
         (stored_summaries
            (summarize_main int_of_str str_of_value ask insert_ok
                            items summarized_ids)).
Proof.
  unfold summarize_main.
  destruct (summarize_loop_spec (items_to_summarize items summarized_ids)
              (items_to_summarize items summarized_ids)
              (mkSummarize [] 0 0)) as (H1 & _);
    [apply incl_refl|constructor|reflexivity|].
  cbv zeta in H1. eapply Forall_impl; [|exact H1].
  intros row ((item & Hitem & Hid) & Hscore & Hcat).
  apply (sublist_In _ _ _ (sublist_firstn 50 _)) in Hitem.
  apply filter_In in Hitem. destruct Hitem as [Hitem Hnew].
  split; [|split; [now exists item|split; assumption]].
  rewrite Hid. intros Hin.
  apply negb_true_iff in Hnew.
  assert (Ht : existsb (String.eqb (queued_id item)) summarized_ids = true).
  { apply existsb_exists. exists (queued_id item).
    split; [exact Hin|apply String.eqb_refl]. }
  congruence.
Qed.
End SummarizeMainFacts.

(** ** Facts about the email *)

(** The sizes of the fixed parts, as counted in the source. *)
Example email_frame_length :
  String.length (format_email_html (fun s => s) "2024-05-03" empty_digest)
  = (312 + 10 + 192)%nat.
Proof. vm_compute. reflexivity. Qed.

Example email_length :
  String.length
    (format_email_html (fun s => s) "2024-05-03"
       (build_digest [row 95 false; row 40 false; row 10 true]))
  = 2187%nat.
Proof. vm_compute. reflexivity. Qed.

Section FormatEmailFacts.
Variable upper : string -> string.

(** Find a piece in a text written as [a ++ (b ++ ...)]. *)
Ltac find_piece :=
  first [ apply occurs_refl
        | apply occurs_app_l; apply occurs_refl
        | apply occurs_app_r; find_piece ].

Lemma email_blocks_mention (item : digest_item) :
  (occurs (title item) (email_critical_item upper item)
   /\ occurs (url item) (email_critical_item upper item))
  /\ (occurs (title item) (email_watch_item item)
      /\ occurs (url item) (email_watch_item item))
  /\ (occurs (title item) (email_quick_item item)
      /\ occurs (url item) (email_quick_item item)).
Proof.
  unfold email_critical_item, email_watch_item, email_quick_item.
  repeat split; find_piece.
Qed.

(** What one section does to the text written so far. *)
Lemma email_section_keeps (block : digest_item -> string)
    (items : list digest_item) (html heading s : string) :
  occurs s html ->
  occurs s match items with
           | [] => html
           | _ :: _ => append_each block items (html ++ heading)
           end.
Proof.
  intros H. destruct items; [exact H|].
  now apply append_each_keeps, occurs_app_l.
Qed.

Lemma email_section_mentions (block : digest_item -> string)
    (items : list digest_item) (html heading s : string)
    (item : digest_item) :
  In item items -> occurs s (block item) ->
  occurs s match items with
           | [] => html
           | _ :: _ => append_each block items (html ++ heading)
           end.
Proof.
  intros Hin H. destruct items as [|i l]; [contradiction|].
  now apply (append_each_mentions block (i :: l) _ s item).
Qed.

(** X25 (text of the email). The HTML [format_email_html] returns
    contains the date and, for every item of every tier of the digest,
    its title and its URL. *)
Theorem email_mentions_every_item (date : string) (content : digest) :
  let html := format_email_html upper date content in
  occurs date html
  /\ forall item,
       In item (must_know content ++ worth_a_look content
                ++ quick_hits content) ->
       occurs (title item) html /\ occurs (url item) html.
Proof.
  cbv zeta. unfold format_email_html.
  assert (Hq : forall s html,
             occurs s html ->
             occurs s match quick_hits content with
                      | [] => html
                      | _ :: _ =>
                          (append_each email_quick_item (quick_hits content)
                                       (html ++ email_quick_heading)
                           ++ email_quick_close)%string
                      end).
  { intros s html H. destruct (quick_hits content); [exact H|].
    now apply occurs_app_l, append_each_keeps, occurs_app_l. }
  split.
  - apply occurs_app_l, Hq, email_section_keeps, email_section_keeps.
    unfold email_header. find_piece.
  - intros item Hin.
    destruct (email_blocks_mention item)
      as ((M1 & M2) & (W1 & W2) & (Q1 & Q2)).
    apply in_app_or in Hin. destruct Hin as [Hin|Hin];
      [|apply in_app_or in Hin; destruct Hin as [Hin|Hin]].
    + split; apply occurs_app_l, Hq, email_section_keeps;
        eapply email_section_mentions; eauto.
    + split; apply occurs_app_l, Hq;
        eapply email_section_mentions; eauto.
    + split; apply occurs_app_l;
        (destruct (quick_hits content) as [|i l] eqn:E; [contradiction|]);
        apply occurs_app_l;
        eapply (append_each_mentions email_quick_item (i :: l)); eauto.
Qed.
End FormatEmailFacts.

Lemma email_mentions_every_item_witness :
  let d := build_digest [row 95 false; row 40 false; row 10 true] in
  let html := format_email_html (fun s => s) "2024-05-03" d in
  occurs (title (item_of 40 false)) html
  /\ occurs (url (item_of 40 false)) html.
Proof.
  intros d html.
  apply (proj2 (email_mentions_every_item (fun s => s) "2024-05-03" d)
               (item_of 40 false)).
  vm_compute. right. right. left. reflexivity.
Defined.
